(** * MasjidPrayerTimeDisplay: the temporal scheduling engine of [src/main.py]

    A shallow embedding of the calendar store ([format_prayer_time],
    [load_prayer_times], [get_today_prayer_times]), the lunar date resolver
    ([MasjidDisplay._get_islamic_date]), the event scheduler
    ([MasjidDisplay._get_time_until_next_event]) and the signal trigger
    ([MasjidDisplay._check_and_play_adhan] with its inner [check_time]).

    Conventions of the embedding.
    - A [datetime] is the number of microseconds elapsed since midnight of
      the day of proleptic Gregorian ordinal 0; its [date] is the ordinal of
      its day ([date.toordinal()]), a [timedelta] is a number of
      microseconds.  The bounds of Python's [datetime] (years 1 to 9999) are
      not part of the model.
    - A Python [str] is a [string]; a character of the model stands for a
      code point below 256.
    - A Python [dict] used as a map is a [gmap]; [d.get(k, "")] is
      [default "" (d !! k)].
    - The calendar file is taken as the rows [csv.DictReader] yields for
      its lines ([csv_row]): a line may be shorter or longer than the
      header.
    - [datetime.strptime] is modelled after the regular expressions the
      CPython module [_strptime] builds for the two formats the program
      uses, with the alternatives tried in the order of the expression. *)

From Stdlib Require Import ZArith Lia String Ascii List.
From stdpp Require Import base option list gmap strings pretty.

Open Scope string_scope.
Open Scope list_scope.
Open Scope Z_scope.

(** ** Instants, dates and durations *)

Abbreviation datetime := Z.
Abbreviation timedelta := Z.

Definition SECOND : timedelta := 1000000.
Definition MINUTE : timedelta := 60 * SECOND.
Definition HOUR : timedelta := 3600 * SECOND.
Definition DAY : timedelta := 86400 * SECOND.

(** [timedelta(days=n)], [timedelta(seconds=n)] *)
Definition days (n : Z) : timedelta := n * DAY.
Definition seconds (n : Z) : timedelta := n * SECOND.

(** [dt.date()], as an ordinal, and the time of day of [dt] *)
Definition date_of (dt : datetime) : Z := dt `div` DAY.
Definition time_of_day (dt : datetime) : timedelta := dt `mod` DAY.

(** [dt.weekday()]: Monday is 0, Friday is 4 *)
Definition weekday (dt : datetime) : Z := (date_of dt + 6) `mod` 7.

(** [int(td.total_seconds())]: the whole seconds of [td], truncated toward
    zero.  [total_seconds] divides by [10**6] in floating point; on the
    differences the program forms, which are shorter than two days, the
    integer part of that quotient is the integer quotient. *)
Definition total_seconds_int (td : timedelta) : Z := Z.quot td SECOND.

(** A parsed time of day: what [strptime] leaves in the hour and minute
    fields (seconds and microseconds are 0). *)
Record clock := Clock { hour : Z; minute : Z }.

(** [parsed.replace(year=dt.year, month=dt.month, day=dt.day)] *)
Definition replace_date (c : clock) (dt : datetime) : datetime :=
  date_of dt * DAY + hour c * HOUR + minute c * MINUTE.

(** *** The civil calendar ([datetime._ord2ymd] and [strftime("%Y-%m-%d")]) *)

Definition DAYS_BEFORE_MONTH (month : Z) : Z :=
  match month with
  | 1 => 0 | 2 => 31 | 3 => 59 | 4 => 90 | 5 => 120 | 6 => 151
  | 7 => 181 | 8 => 212 | 9 => 243 | 10 => 273 | 11 => 304 | 12 => 334
  | _ => 0
  end.

Definition DAYS_IN_MONTH (month : Z) : Z :=
  match month with
  | 2 => 28
  | 4 | 6 | 9 | 11 => 30
  | _ => 31
  end.

Definition ord2ymd (ordinal : Z) : Z * Z * Z :=
  let n := ordinal - 1 in
  let n400 := n `div` 146097 in
  let n := n `mod` 146097 in
  let year := n400 * 400 + 1 in
  let n100 := n `div` 36524 in
  let n := n `mod` 36524 in
  let n4 := n `div` 1461 in
  let n := n `mod` 1461 in
  let n1 := n `div` 365 in
  let n := n `mod` 365 in
  let year := year + n100 * 100 + n4 * 4 + n1 in
  if (n1 =? 4) || (n100 =? 4) then (year - 1, 12, 31)
  else
    let leapyear := (n1 =? 3) && (negb (n4 =? 24) || (n100 =? 3)) in
    let month := Z.shiftr (n + 50) 5 in
    let preceding :=
      DAYS_BEFORE_MONTH month + (if (2 <? month) && leapyear then 1 else 0) in
    if n <? preceding then
      let month := month - 1 in
      let preceding :=
        preceding
        - (DAYS_IN_MONTH month + (if (month =? 2) && leapyear then 1 else 0)) in
      (year, month, n - preceding + 1)
    else (year, month, n - preceding + 1).

(** a two-digit, zero-padded field *)
Definition pad2 (n : Z) : string :=
  pretty ((n `div` 10) `mod` 10) +:+ pretty (n `mod` 10).

(** [d.strftime("%Y-%m-%d")] for the date of ordinal [d] *)
Definition strftime_Y_m_d (d : Z) : string :=
  let '(y, m, dd) := ord2ymd d in
  pretty y +:+ "-" +:+ pad2 m +:+ "-" +:+ pad2 dd.

(** ** [datetime.strptime] for the formats ['%H:%M'] and ['%I:%M %p'] *)

Definition code (c : ascii) : Z := Z.of_N (N_of_ascii c).

(** [\d] *)
Definition is_digit (c : ascii) : bool := (48 <=? code c) && (code c <=? 57).
Definition digit (c : ascii) : Z := code c - 48.
Definition in_range (lo hi : Z) (c : ascii) : bool :=
  (48 + lo <=? code c) && (code c <=? 48 + hi).

(** [\s]: the white space among the code points below 256 *)
Definition is_space (c : ascii) : bool :=
  ((9 <=? code c) && (code c <=? 13)) || ((28 <=? code c) && (code c <=? 32))
  || (code c =? 133) || (code c =? 160).

(** a letter, case ignored ([re.IGNORECASE]) *)
Definition is_letter (lower : ascii) (c : ascii) : bool :=
  (code c =? code lower) || (code c =? code lower - 32).

(** One character satisfying [p]: the matches of a one-character
    expression at the head of [s], each with the text that remains. *)
Definition one (p : ascii → bool) (s : string) : list (ascii * string) :=
  match s with
  | String c rest => if p c then [(c, rest)] else []
  | EmptyString => []
  end.

(** Two digits [p1 p2], read as a number. *)
Definition two (p1 p2 : ascii → bool) (s : string) : list (Z * string) :=
  '(a, s1) ← one p1 s; '(b, s2) ← one p2 s1; [(10 * digit a + digit b, s2)].

Definition single (p : ascii → bool) (s : string) : list (Z * string) :=
  '(a, s1) ← one p s; [(digit a, s1)].

(** [(?P<H>2[0-3]|[0-1]\d|\d)] *)
Definition re_H (s : string) : list (Z * string) :=
  two (in_range 2 2) (in_range 0 3) s ++ two (in_range 0 1) is_digit s
  ++ single is_digit s.

(** [(?P<I>1[0-2]|0[1-9]|[1-9])] *)
Definition re_I (s : string) : list (Z * string) :=
  two (in_range 1 1) (in_range 0 2) s ++ two (in_range 0 0) (in_range 1 9) s
  ++ single (in_range 1 9) s.

(** [(?P<M>[0-5]\d|\d)] *)
Definition re_M (s : string) : list (Z * string) :=
  two (in_range 0 5) is_digit s ++ single is_digit s.

(** [:] *)
Definition re_colon (s : string) : list string :=
  '(_, s1) ← one (λ c, code c =? 58) s; [s1].

(** [\s*] and [\s+], greedy: the longest run first *)
Fixpoint re_spaces (s : string) : list string :=
  match s with
  | String c rest => if is_space c then re_spaces rest ++ [s] else [s]
  | EmptyString => [s]
  end.

Definition re_spaces1 (s : string) : list string :=
  '(_, s1) ← one is_space s; re_spaces s1.

(** [(?P<p>am|pm)], the names of the C locale: [true] stands for [pm] *)
Definition re_p (s : string) : list (bool * string) :=
  ('(_, s1) ← one (is_letter "a") s; '(_, s2) ← one (is_letter "m") s1;
   [(false, s2)])
  ++ ('(_, s1) ← one (is_letter "p") s; '(_, s2) ← one (is_letter "m") s1;
      [(true, s2)]).

(** The expressions of the two formats: every way they match at the start
    of [s], the preferred one first, with the fields read and the text that
    remains. *)
Definition re_H_M (s : string) : list (Z * Z * string) :=
  '(h, s1) ← re_H s; s2 ← re_colon s1; '(m, s3) ← re_M s2; [(h, m, s3)].

Definition re_I_M_p (s : string) : list (Z * Z * bool * string) :=
  '(i, s1) ← re_I s; s2 ← re_colon s1; '(m, s3) ← re_M s2;
  s4 ← re_spaces1 s3; '(pm, s5) ← re_p s4; [(i, m, pm, s5)].

(** [datetime.strptime(s, '%H:%M')]: [None] stands for [ValueError], raised
    when the expression does not match at the start of [s] or when its
    first match leaves text unconverted. *)
Definition strptime_H_M (s : string) : option clock :=
  match re_H_M s with
  | (h, m, EmptyString) :: _ => Some (Clock h m)
  | _ => None
  end.

(** [datetime.strptime(s, '%I:%M %p')]: hour 12 is midnight before noon,
    and the hours 1 to 11 are moved past noon by [pm]. *)
Definition strptime_I_M_p (s : string) : option clock :=
  match re_I_M_p s with
  | (i, m, pm, EmptyString) :: _ =>
      let h := if pm then (if i =? 12 then i else i + 12)
               else (if i =? 12 then 0 else i) in
      Some (Clock h m)
  | _ => None
  end.

(** [t.strftime('%I:%M %p')] *)
Definition strftime_I_M_p (c : clock) : string :=
  let h12 := if hour c `mod` 12 =? 0 then 12 else hour c `mod` 12 in
  pad2 h12 +:+ ":" +:+ pad2 (minute c) +:+ " "
  +:+ (if hour c <? 12 then "AM" else "PM").

(** ** Python values *)

(** [d.get(key, "")] *)
Definition get (d : gmap string string) (key : string) : string :=
  default "" (d !! key).

(** the truth value of a [str] and of a [dict] that may be [None] *)
Definition nonempty (s : string) : bool := negb (String.eqb s "").

Definition truthy (d : option (gmap string string)) : bool :=
  match d with
  | Some m => negb (bool_decide (m = ∅))
  | None => false
  end.

(** What a call returns: a value, or the [KeyError] or the [TypeError] it
    raises. *)
Inductive result (A : Type) : Type :=
  | Ok (a : A)
  | KeyError (key : string)
  | TypeError.
Arguments Ok {A} a.
Arguments KeyError {A} key.
Arguments TypeError {A}.

(** ** Calendar store *)

Definition format_prayer_time (time_str : string) : string :=
  if negb (nonempty time_str) then ""
  else match strptime_H_M time_str with
       | Some time_obj => strftime_I_M_p time_obj
       | None => ""
       end.

(** A row as [csv.DictReader] yields it for a line of the file: under the
    name of each column of the header the cell of the line, a text, or
    [None] when the line is shorter than the header and has no such cell
    ([restval]); and, when the line is longer than the header, the list of
    the cells past it, which the reader files under the key [None]
    ([restkey]).  [rest] is empty for a line that is not longer than the
    header: the row then has no key [None]. *)
Record csv_row := CsvRow {
  cells : gmap string (option string);
  rest : list string;
}.

(** [format_prayer_time] on the cell of a column: [not None] holds as [not ""]
    does. *)
Definition format_prayer_time_cell (value : option string) : string :=
  match value with
  | Some time_str => format_prayer_time time_str
  | None => ""
  end.

(** One turn of the loop over the rows.  The dict of the formatted cells is
    built first: [format_prayer_time] on the list under the key [None] of a
    line longer than the header passes [not time_str], the list not being
    empty, and [strptime] raises [TypeError] on it, which nothing catches.
    Then [row["Date"]] raises [KeyError] when the header has no such column;
    for a line without its cell of that column it is [None], and the entries
    are stored under the key [None]. *)
Definition load_row
    (prayer_times : gmap (option string) (gmap string string))
    (row : csv_row) : result (gmap (option string) (gmap string string)) :=
  match rest row with
  | _ :: _ => TypeError
  | [] =>
      match cells row !! "Date" with
      | Some d =>
          Ok (<[d := format_prayer_time_cell <$> delete "Date" (cells row)]>
                prayer_times)
      | None => KeyError "Date"
      end
  end.

Fixpoint load_rows (rows : list csv_row)
    (prayer_times : gmap (option string) (gmap string string))
    : result (gmap (option string) (gmap string string)) :=
  match rows with
  | [] => Ok prayer_times
  | row :: rows =>
      match load_row prayer_times row with
      | Ok prayer_times => load_rows rows prayer_times
      | KeyError k => KeyError k
      | TypeError => TypeError
      end
  end.

(** The source is [None] when the file does not exist ([FileNotFoundError],
    caught), and otherwise the rows the reader yields for the file. *)
Definition load_prayer_times (source : option (list csv_row))
    : result (gmap (option string) (gmap string string)) :=
  match source with
  | Some rows => load_rows rows ∅
  | None => Ok ∅
  end.

(** [today] is the ordinal of [date.today()]. *)
Definition get_today_prayer_times (today : Z)
    (prayer_times : gmap (option string) (gmap string string))
    : option (gmap string string) :=
  prayer_times !! Some (strftime_Y_m_d today).

(** ** The application object *)

Record MasjidDisplay := {
  prayer_times : gmap (option string) (gmap string string);
  today_prayers : option (gmap string string);
  islamic_date_offset : Z;
  beep_played : gmap string bool;
}.

(** [self.beep_played] as [__init__] leaves it *)
Definition beep_played_init : gmap string bool :=
  <["Fajr" := false]> (<["Dhuhr" := false]> (<["Asr" := false]>
  (<["Maghrib" := false]> (<["Isha" := false]> (<["Jummah" := false]> ∅))))).

(** ** Lunar date resolver *)

Record hijri := Hijri { hijri_year : Z; hijri_month : Z; hijri_day : Z }.

Definition HIJRI_MONTH_NAMES : gmap Z string :=
  list_to_map
    [(1, "Muharram"); (2, "Safar"); (3, "Rabi Al-Awwal"); (4, "Rabi Al-Thani");
     (5, "Jamada Al-Awwal"); (6, "Jamada Al-Thani"); (7, "Rajab");
     (8, "Shaban"); (9, "Ramadan"); (10, "Shawwal"); (11, "Dhul-Qadah");
     (12, "Dhul-Hijjah")].

(** The working date of [_get_islamic_date] when it reaches the conversion:
    the rollover at Maghrib first, the manual offset second. *)
Definition date_to_convert (self : MasjidDisplay) (current_time : datetime)
    : Z :=
  let today_gregorian := date_of current_time in
  let date_to_convert := today_gregorian in
  let maghrib_time_str :=
    match today_prayers self with
    | Some today => if bool_decide (today = ∅) then "" else get today "Maghrib"
    | None => ""
    end in
  let date_to_convert :=
    if nonempty maghrib_time_str then
      match strptime_I_M_p maghrib_time_str with
      | Some parsed =>
          let maghrib_time := replace_date parsed current_time in
          if maghrib_time <=? current_time then date_to_convert + 1
          else date_to_convert
      | None => date_to_convert
      end
    else date_to_convert in
  date_to_convert + islamic_date_offset self.

Section Resolver.

(** [convert.Gregorian(year, month, day).to_hijri()] of the package
    [hijri_converter] *)
Variable to_hijri : Z → Z → Z → hijri.

(** the tuple [_get_islamic_date] builds from a converted date *)
Definition hijri_tuple (hijri_date : hijri) : result (Z * string * Z) :=
  match HIJRI_MONTH_NAMES !! hijri_month hijri_date with
  | Some name => Ok (hijri_day hijri_date, name, hijri_year hijri_date)
  | None => KeyError (pretty (hijri_month hijri_date))
  end.

Definition _get_islamic_date (self : MasjidDisplay)
    (current_time : datetime) : result (Z * string * Z) :=
  let '(year, month, day) := ord2ymd (date_to_convert self current_time) in
  hijri_tuple (to_hijri year month day).

End Resolver.

(** ** Event scheduler *)

(** The three variables the loops of [_get_time_until_next_event] update. *)
Record scan := Scan {
  next_event : option string;
  min_time_diff : option timedelta;
  is_iqamah : bool;
}.

Definition scan_init : scan := Scan None None false.

(** [prayer_order], with its second entry replaced on a Friday *)
Definition prayer_order (is_friday : bool) : list string :=
  let prayer_order := ["Fajr"; "Dhuhr"; "Asr"; "Maghrib"; "Isha"] in
  if is_friday then <[1%nat := "Jummah"]> prayer_order else prayer_order.

(** [times_to_check] of one prayer: the Adhan time, then the Iqamah time
    when it is given and is another text. *)
Definition times_to_check (today : gmap string string) (prayer : string)
    : list (string * bool) :=
  let adhan_time_str := get today prayer in
  let iqamah_time_str := get today (prayer +:+ "_Iqamah") in
  (if nonempty adhan_time_str then [(adhan_time_str, false)] else [])
  ++ (if nonempty iqamah_time_str
         && negb (String.eqb adhan_time_str iqamah_time_str)
      then [(iqamah_time_str, true)] else []).

(** The body of the inner loop. *)
Definition check_event (current_time : datetime) (prayer : string)
    (acc : scan) (entry : string * bool) : scan :=
  let '(time_str, is_iqamah_event) := entry in
  match strptime_I_M_p time_str with
  | Some parsed =>
      let event_time := replace_date parsed current_time in
      if current_time <? event_time then
        let time_diff := event_time - current_time in
        if match min_time_diff acc with
           | None => true
           | Some least => time_diff <? least
           end
        then Scan (Some prayer) (Some time_diff) is_iqamah_event
        else acc
      else acc
  | None => acc
  end.

(** The body of the loop over [prayer_order]. *)
Definition check_prayer (today : gmap string string) (current_time : datetime)
    (is_friday : bool) (acc : scan) (prayer : string) : scan :=
  if negb is_friday && String.eqb prayer "Jummah" then acc
  else foldl (check_event current_time prayer) acc
         (times_to_check today prayer).

Definition events_today (today : gmap string string)
    (current_time : datetime) : scan :=
  let is_friday := weekday current_time =? 4 in
  foldl (check_prayer today current_time is_friday) scan_init
    (prayer_order is_friday).

(** The lookahead to the Fajr of the next day, made when the day has no
    event left. *)
Definition next_day_fajr (self : MasjidDisplay) (current_time : datetime)
    (acc : scan) : scan :=
  match next_event acc with
  | Some _ => acc
  | None =>
      let next_day := current_time + days 1 in
      let next_day_str := strftime_Y_m_d (date_of next_day) in
      match prayer_times self !! Some next_day_str with
      | Some next_day_prayers =>
          if bool_decide (next_day_prayers = ∅) then acc
          else
            let fajr_time_str := get next_day_prayers "Fajr" in
            if nonempty fajr_time_str then
              match strptime_I_M_p fajr_time_str with
              | Some parsed =>
                  let fajr_time := replace_date parsed next_day in
                  let time_diff := fajr_time - current_time in
                  Scan (Some "Fajr") (Some time_diff) false
              | None => acc
              end
            else acc
      | None => acc
      end
  end.

(** The tuple without an event. *)
Definition no_event : option string * Z * Z * Z * bool :=
  (None, 0, 0, 0, false).

(** The result, formatted: a [timedelta] is true when it is not zero. *)
Definition format_result (acc : scan) : option string * Z * Z * Z * bool :=
  match min_time_diff acc with
  | Some diff =>
      if diff =? 0 then no_event
      else
        let total_seconds := total_seconds_int diff + 1 in
        let hours := total_seconds `div` 3600 in
        let remainder := total_seconds `mod` 3600 in
        let minutes := remainder `div` 60 in
        let seconds := remainder `mod` 60 in
        (next_event acc, hours, minutes, seconds, is_iqamah acc)
  | None => no_event
  end.

(** [current_time] is what [datetime.now()] returns in the call. *)
Definition _get_time_until_next_event (self : MasjidDisplay)
    (current_time : datetime) : option string * Z * Z * Z * bool :=
  match today_prayers self with
  | Some today =>
      if bool_decide (today = ∅) then no_event
      else format_result
             (next_day_fajr self current_time (events_today today current_time))
  | None => no_event
  end.

(** ** Signal trigger *)

(** The signal state during a tick: the latches [self.beep_played], and the
    keys for which [self.adhan_sound.play()] has been called in the tick,
    the latest last. *)
Record signals := Signals {
  latches : gmap string bool;
  played : list string;
}.

(** [self.beep_played.get(key, False)] *)
Definition latch (beep : gmap string bool) (key : string) : bool :=
  default false (beep !! key).

(** The inner helper [check_time]. *)
Definition check_time (current_time : datetime) (time_str key : string)
    (sg : signals) : signals :=
  if negb (nonempty time_str) then sg
  else
    match strptime_I_M_p time_str with
    | None => sg
    | Some parsed =>
        let event_time := replace_date parsed current_time in
        if (event_time <=? current_time)
           && (current_time <? event_time + seconds 1)
        then
          if negb (latch (latches sg) key)
          then Signals (<[key := true]> (latches sg)) (played sg ++ [key])
          else sg
        else if event_time + seconds 1 <? current_time
        then Signals (<[key := false]> (latches sg)) (played sg)
        else sg
    end.

(** The body of the loop of [_check_and_play_adhan]. *)
Definition check_and_play (today : gmap string string)
    (current_time : datetime) (sg : signals) (prayer : string) : signals :=
  let is_friday := weekday current_time =? 4 in
  if (String.eqb prayer "Dhuhr" && is_friday)
     || (String.eqb prayer "Jummah" && negb is_friday)
  then sg
  else
    let adhan_time_str := get today prayer in
    let iqamah_time_str := get today (prayer +:+ "_Iqamah") in
    let sg := check_time current_time adhan_time_str prayer sg in
    if nonempty iqamah_time_str
       && negb (String.eqb iqamah_time_str adhan_time_str)
    then check_time current_time iqamah_time_str (prayer +:+ "_Iqamah") sg
    else sg.

Definition TRACKED : list string :=
  ["Fajr"; "Dhuhr"; "Asr"; "Maghrib"; "Isha"; "Jummah"].

(** One tick: the latches it leaves and the keys it played. *)
Definition _check_and_play_adhan (self : MasjidDisplay)
    (current_time : datetime) : signals :=
  let sg := Signals (beep_played self) [] in
  match today_prayers self with
  | Some today =>
      if bool_decide (today = ∅) then sg
      else foldl (check_and_play today current_time) sg TRACKED
  | None => sg
  end.

(** ** Colour themes *)

(** [rgb] *)
Definition rgb (r g b : Z) : Z * Z * Z := (r, g, b).

Record theme := Theme { PRIMARY : Z * Z * Z; SECONDARY : Z * Z * Z }.

Definition COLOR_THEMES : list theme :=
  [
   Theme (rgb 0 34 68) (rgb 68 162 255);
   Theme (rgb 30 30 60) (rgb 120 120 180);
   Theme (rgb 50 20 20) (rgb 200 100 100);
   Theme (rgb 20 40 60) (rgb 100 150 200);
   Theme (rgb 40 20 60) (rgb 160 100 200);
   Theme (rgb 20 60 40) (rgb 100 200 150);
   Theme (rgb 60 40 20) (rgb 200 150 100);
   Theme (rgb 20 20 50) (rgb 100 100 200);
   Theme (rgb 30 50 30) (rgb 120 180 120);
   Theme (rgb 50 30 50) (rgb 180 120 180);
   Theme (rgb 20 50 50) (rgb 100 200 200);
   Theme (rgb 50 50 20) (rgb 200 200 100);
   Theme (rgb 20 20 80) (rgb 100 100 240);
   Theme (rgb 60 30 20) (rgb 200 150 100);
   Theme (rgb 10 20 30) (rgb 80 120 160);
   Theme (rgb 70 30 30) (rgb 220 110 110);
   Theme (rgb 30 60 90) (rgb 140 180 220);
   Theme (rgb 50 10 70) (rgb 180 90 200);
   Theme (rgb 10 70 50) (rgb 90 210 170);
   Theme (rgb 80 50 20) (rgb 220 170 110);
   Theme (rgb 30 30 70) (rgb 120 120 220);
   Theme (rgb 40 70 40) (rgb 140 210 140);
   Theme (rgb 70 40 70) (rgb 210 140 210);
   Theme (rgb 30 70 70) (rgb 120 220 220);
   Theme (rgb 70 70 30) (rgb 220 220 120);
   Theme (rgb 10 10 90) (rgb 80 80 240);
   Theme (rgb 90 40 20) (rgb 240 170 110)
  ].

(** The keys of [pygame] that [_handle_input] tells apart. *)
Inductive pygame_key : Type :=
  | K_ESCAPE | K_TAB | K_RIGHT | K_LEFT | K_SPACE
  | K_1 | K_2 | K_3 | K_4 | K_5 | K_6 | K_BACKSPACE | K_OTHER.

Definition pygame_key_eqb (a b : pygame_key) : bool :=
  match a, b with
  | K_ESCAPE, K_ESCAPE | K_TAB, K_TAB | K_RIGHT, K_RIGHT | K_LEFT, K_LEFT
  | K_SPACE, K_SPACE | K_1, K_1 | K_2, K_2 | K_3, K_3 | K_4, K_4 | K_5, K_5
  | K_6, K_6 | K_BACKSPACE, K_BACKSPACE | K_OTHER, K_OTHER => true
  | _, _ => false
  end.

(** [COLOR_THEMES[self.current_theme_index % len(COLOR_THEMES)]], read as
    the pair of its two colours; [None] stands for [IndexError]. *)
Definition _get_current_theme (current_theme_index : Z)
    : option (Z * Z * Z * (Z * Z * Z)) :=
  let n_themes := Z.of_nat (length COLOR_THEMES) in
  match COLOR_THEMES !! Z.to_nat (current_theme_index `mod` n_themes) with
  | Some theme => Some (PRIMARY theme, SECONDARY theme)
  | None => None
  end.

(** [_cycle_theme]: the index it leaves in [self.current_theme_index], and
    the colours it then reads. *)
Definition _cycle_theme (key : pygame_key) (current_theme_index : Z)
    : Z * option (Z * Z * Z * (Z * Z * Z)) :=
  let n_themes := Z.of_nat (length COLOR_THEMES) in
  let current_theme_index :=
    if pygame_key_eqb key K_RIGHT then (current_theme_index + 1) `mod` n_themes
    else if pygame_key_eqb key K_LEFT
         then (current_theme_index - 1) `mod` n_themes
         else current_theme_index in
  (current_theme_index, _get_current_theme current_theme_index).

(** ** Font sizes *)

(** A [pygame.font.Font]: the file it is made from, under [FONT_PATH], and
    its size. *)
Record font := Font { font_file : string; font_size : Z }.

(** [_adjust_font_size] on [self.settings] and [self.fonts]; [None] stands
    for the [TypeError] of the arithmetic on a size that [settings.get]
    does not find. *)
Definition _adjust_font_size (font_key : string) (key : pygame_key)
    (settings : gmap string Z) (fonts : gmap string font)
    : option (gmap string Z * gmap string font) :=
  let size_key := font_key +:+ "_font_size" in
  match settings !! size_key with
  | Some current_size =>
      let new_size :=
        if pygame_key_eqb key K_2 || pygame_key_eqb key K_4
           || pygame_key_eqb key K_6
        then current_size + 1
        else Z.max 1 (current_size - 1) in
      let file :=
        if String.eqb font_key "date" || String.eqb font_key "islamic_date"
        then "regular.ttf" else "bold.ttf" in
      Some (<[size_key := new_size]> settings,
            <[font_key := Font file new_size]> fonts)
  | None => None
  end.

(** ** The countdown on the screen *)

(** The three texts [_draw_countdown] renders for a result of the
    scheduler: the heading, the value and its unit; [None] when it draws no
    countdown. *)
Definition countdown_texts (res : option string * Z * Z * Z * bool)
    : option (string * string * string) :=
  let '(next_event, hours, minutes, secs, is_iqamah) := res in
  match next_event with
  | Some name =>
      if nonempty name then
        let event_name := if is_iqamah then "Iqamah" else name in
        let countdown_text := "Time until " +:+ event_name in
        let '(value_text, unit_text) :=
          if 0 <? hours then
            (pretty hours, if hours =? 1 then "hour" else "hours")
          else if 0 <? minutes then
            (pretty minutes, if minutes =? 1 then "minute" else "minutes")
          else (pretty secs, if secs =? 1 then "second" else "seconds") in
        Some (countdown_text, value_text, unit_text)
      else None
  | None => None
  end.

Definition _draw_countdown (self : MasjidDisplay) (current_time : datetime)
    : option (string * string * string) :=
  countdown_texts (_get_time_until_next_event self current_time).

(** ** Reloading and the driving loop *)

(** [reload_data]: [today] is the ordinal of [date.today()] in the call.  An
    error of the load leaves the object as it was. *)
Definition reload_data (source : option (list csv_row))
    (today : Z) (self : MasjidDisplay) : result MasjidDisplay :=
  match load_prayer_times source with
  | Ok store =>
      Ok {| prayer_times := store;
            today_prayers := get_today_prayer_times today store;
            islamic_date_offset := islamic_date_offset self;
            beep_played := beep_played self |}
  | KeyError k => KeyError k
  | TypeError => TypeError
  end.

(** The object with the date [self.current_date] the loop compares the day
    with. *)
Record app := App {
  display : MasjidDisplay;
  current_date : Z;
}.

(** The data [__init__] sets up: [today] is the ordinal of [date.today()]. *)
Definition init_data (source : option (list csv_row))
    (today : Z) : result app :=
  match load_prayer_times source with
  | Ok store =>
      Ok (App {| prayer_times := store;
                 today_prayers := get_today_prayer_times today store;
                 islamic_date_offset := -1;
                 beep_played := beep_played_init |} today)
  | KeyError k => KeyError k
  | TypeError => TypeError
  end.

(** The state updates of one turn of [run]: the check of the date, then the
    tick of the trigger when the day has events.  [current_time] is what
    [datetime.now()] returns and [new_date] the ordinal of [date.today()];
    the result is the object the turn leaves and the keys it played. *)
Definition update_state (a : app) (current_time : datetime) (new_date : Z)
    : app * list string :=
  let self := display a in
  let '(self, current_date) :=
    if bool_decide (new_date ≠ current_date a)
    then ({| prayer_times := prayer_times self;
             today_prayers := get_today_prayer_times new_date (prayer_times self);
             islamic_date_offset := islamic_date_offset self;
             beep_played := beep_played self |}, new_date)
    else (self, current_date a) in
  if truthy (today_prayers self) then
    let sg := _check_and_play_adhan self current_time in
    (App {| prayer_times := prayer_times self;
            today_prayers := today_prayers self;
            islamic_date_offset := islamic_date_offset self;
            beep_played := latches sg |} current_date, played sg)
  else (App self current_date, []).

(** * Definitions of the statements *)

(** The definitions below are not in the source: they name what the
    statements speak of (the timestamps the scheduler collects, the event
    instant a tick has for a key, runs of ticks) and the days of the
    scenarios. *)

(** ** Times of day *)

(** A clock that [strptime] can return. *)
Definition clock_ok (c : clock) : Prop :=
  0 ≤ hour c < 24 ∧ 0 ≤ minute c < 60.

(** The 1440 times of day of minute granularity. *)
Definition clocks : list clock :=
  h ← seqZ 0 24; m ← seqZ 0 60; [Clock h m].

(** The 24-hour text [HH:MM] of a clock. *)
Definition text_H_M (c : clock) : string :=
  pad2 (hour c) +:+ ":" +:+ pad2 (minute c).

Definition normalizes (c : clock) : bool :=
  String.eqb (format_prayer_time (text_H_M c)) (strftime_I_M_p c)
  && match strptime_I_M_p (strftime_I_M_p c) with
     | Some c' => (hour c' =? hour c) && (minute c' =? minute c)
     | None => false
     end.

(** ** Sources and objects of the examples *)

(** A source of one row, for the first of January 2025 (a Wednesday, of
    ordinal 739252), and the application object loaded from it. *)
Definition ROW_2025_01_01 : gmap string string :=
  <["Date" := "2025-01-01"]> (<["Fajr" := "05:30"]> (<["Dhuhr" := "13:00"]>
  (<["Maghrib" := "17:45"]> (<["Maghrib_Iqamah" := "17:50"]> ∅)))).

(** The row of a line that has the cells of the header, no more and no
    fewer. *)
Definition full_line (line : gmap string string) : csv_row :=
  CsvRow (Some <$> line) [].

Definition loaded (rows : list (gmap string string)) (today : Z)
    : MasjidDisplay :=
  let store := match load_prayer_times (Some (full_line <$> rows)) with
               | Ok store => store
               | _ => ∅
               end in
  {| prayer_times := store;
     today_prayers := get_today_prayer_times today store;
     islamic_date_offset := -1;
     beep_played := beep_played_init |}.

(** The row of a line of that day with a cell more than the header has
    columns. *)
Definition OVERLONG_ROW : csv_row :=
  CsvRow (Some <$> ROW_2025_01_01) ["06:45"].

(** the instant of day [d] at [h:m:s] *)
Definition instant (d h m s : Z) : datetime :=
  d * DAY + h * HOUR + m * MINUTE + s * SECOND.

(** ** Resolver and scheduler *)

(** The day-boundary time the resolver works with: the Maghrib time of the
    day, when the day has one that [strptime] reads. *)
Definition maghrib_clock (self : MasjidDisplay) : option clock :=
  match today_prayers self with
  | Some today => strptime_I_M_p (get today "Maghrib")
  | None => None
  end.

(** A collected timestamp: the prayer it belongs to, whether it is the
    Iqamah, and its instant on the day of the current time. *)
Abbreviation candidate := (string * bool * datetime)%type.

Definition entry_candidates (current_time : datetime) (prayer : string)
    (entry : string * bool) : list candidate :=
  match strptime_I_M_p entry.1 with
  | Some parsed => [(prayer, entry.2, replace_date parsed current_time)]
  | None => []
  end.

Definition prayer_candidates (today : gmap string string)
    (current_time : datetime) (is_friday : bool) (prayer : string)
    : list candidate :=
  if negb is_friday && String.eqb prayer "Jummah" then []
  else times_to_check today prayer ≫= entry_candidates current_time prayer.

(** The timestamps the loops of the scheduler go through, in their order. *)
Definition candidates (today : gmap string string) (current_time : datetime)
    : list candidate :=
  let is_friday := weekday current_time =? 4 in
  prayer_order is_friday ≫= prayer_candidates today current_time is_friday.

(** What the loops do with one timestamp. *)
Definition nearer (current_time : datetime) (acc : scan) (c : candidate)
    : scan :=
  let '(prayer, is_iqamah_event, event_time) := c in
  if current_time <? event_time then
    if match min_time_diff acc with
       | None => true
       | Some least => event_time - current_time <? least
       end
    then Scan (Some prayer) (Some (event_time - current_time)) is_iqamah_event
    else acc
  else acc.

(** [acc] holds the nearest of the candidates that lie after [now], the
    earliest of the list among equals. *)
Definition is_nearest (now : datetime) (cands : list candidate) (acc : scan)
    : Prop :=
  match next_event acc with
  | Some prayer =>
      ∃ (i : nat) t,
        cands !! i = Some (prayer, is_iqamah acc, t)
        ∧ now < t
        ∧ min_time_diff acc = Some (t - now)
        ∧ ∀ (j : nat) prayer' iq' t',
            cands !! j = Some (prayer', iq', t') → now < t' →
            t ≤ t' ∧ ((j < i)%nat → t < t')
  | None =>
      acc = scan_init
      ∧ ∀ prayer' iq' t', (prayer', iq', t') ∈ cands → t' ≤ now
  end.

(** The day of Scenario A: Fajr at 05:30 and Dhuhr at 13:00, on Wednesday
    the first of January 2025. *)
Definition ROW_SCENARIO_A : gmap string string :=
  <["Date" := "2025-01-01"]> (<["Fajr" := "05:30"]> (<["Dhuhr" := "13:00"]> ∅)).

Definition SCENARIO_A : MasjidDisplay := loaded [ROW_SCENARIO_A] 739252.

(** The one timestamp of the lookahead: the Fajr call time of the next
    calendar day, when that day is in the store with a Fajr time that
    [strptime] reads. *)
Definition next_day_fajr_time (self : MasjidDisplay) (now : datetime)
    : option datetime :=
  next_day_prayers ← prayer_times self !! Some (strftime_Y_m_d (date_of now + 1));
  parsed ← strptime_I_M_p (get next_day_prayers "Fajr");
  Some (replace_date parsed (now + days 1)).

(** Scenario C: the day of Scenario A and the day after it, with Fajr at
    05:30 again. *)
Definition ROW_2025_01_02 : gmap string string :=
  <["Date" := "2025-01-02"]> (<["Fajr" := "05:30"]> (<["Dhuhr" := "13:01"]> ∅)).

Definition SCENARIO_C : MasjidDisplay :=
  loaded [ROW_SCENARIO_A; ROW_2025_01_02] 739252.

(** ** Trigger *)

(** The calls of [check_time] that a tick makes for one prayer, as pairs of
    the time text and the key, in their order. *)
Definition prayer_checks (today : gmap string string) (current_time : datetime)
    (prayer : string) : list (string * string) :=
  let is_friday := weekday current_time =? 4 in
  if (String.eqb prayer "Dhuhr" && is_friday)
     || (String.eqb prayer "Jummah" && negb is_friday)
  then []
  else
    let adhan_time_str := get today prayer in
    let iqamah_time_str := get today (prayer +:+ "_Iqamah") in
    (adhan_time_str, prayer)
    :: (if nonempty iqamah_time_str
           && negb (String.eqb iqamah_time_str adhan_time_str)
        then [(iqamah_time_str, prayer +:+ "_Iqamah")] else []).

Definition checks (today : gmap string string) (current_time : datetime)
    : list (string * string) :=
  TRACKED ≫= prayer_checks today current_time.

Definition check (current_time : datetime) (sg : signals)
    (call : string * string) : signals :=
  check_time current_time call.1 call.2 sg.

(** The instant of an event given by its text, on the day of [now]. *)
Definition event_of (now : datetime) (time_str : string) : option datetime :=
  (λ parsed, replace_date parsed now) <$> strptime_I_M_p time_str.

(** The time text a list of calls has for a key. *)
Fixpoint call_of (calls : list (string * string)) (key : string)
    : option string :=
  match calls with
  | [] => None
  | (time_str, k) :: calls =>
      if String.eqb k key then Some time_str else call_of calls key
  end.

(** The event instant of a key in a tick, when the tick has one for it. *)
Definition key_event (today_prayers : option (gmap string string))
    (now : datetime) (key : string) : option datetime :=
  match today_prayers with
  | Some today =>
      if bool_decide (today = ∅) then None
      else call_of (checks today now) key ≫= event_of now
  | None => None
  end.

(** What a tick does for one key with event instant [event_time] and
    entry [entry] in [beep_played]: the entry it leaves, and whether it
    plays the sound for the key. *)
Definition key_step (now : datetime) (event_time : option datetime)
    (entry : option bool) : option bool * bool :=
  match event_time with
  | Some t =>
      if (t <=? now) && (now <? t + seconds 1) then
        if negb (default false entry) then (Some true, true) else (entry, false)
      else if t + seconds 1 <? now then (Some false, false)
      else (entry, false)
  | None => (entry, false)
  end.

(** The prayers a tick does not skip. *)
Definition tracked_today (now : datetime) : list string :=
  let is_friday := weekday now =? 4 in
  List.filter
    (λ prayer, negb ((String.eqb prayer "Dhuhr" && is_friday)
                     || (String.eqb prayer "Jummah" && negb is_friday)))
    TRACKED.

(** One turn of [run]: the instant of the tick and the events of the day
    the loop holds by then (it replaces them on a new date and on a
    reload). *)
Record tick := Tick {
  tick_time : datetime;
  tick_today : option (gmap string string);
}.

Definition set_today (today : option (gmap string string))
    (self : MasjidDisplay) : MasjidDisplay :=
  {| prayer_times := prayer_times self;
     today_prayers := today;
     islamic_date_offset := islamic_date_offset self;
     beep_played := beep_played self |}.

Definition set_beep_played (beep : gmap string bool) (self : MasjidDisplay)
    : MasjidDisplay :=
  {| prayer_times := prayer_times self;
     today_prayers := today_prayers self;
     islamic_date_offset := islamic_date_offset self;
     beep_played := beep |}.

(** The signals of a tick, and the object the tick leaves. *)
Definition step (self : MasjidDisplay) (tk : tick) : signals :=
  _check_and_play_adhan (set_today (tick_today tk) self) (tick_time tk).

Definition after (self : MasjidDisplay) (tk : tick) : MasjidDisplay :=
  set_beep_played (latches (step self tk)) (set_today (tick_today tk) self).

(** The signals of the ticks of a run, tick by tick. *)
Fixpoint run (self : MasjidDisplay) (ticks : list tick) : list signals :=
  match ticks with
  | [] => []
  | tk :: ticks => step self tk :: run (after self tk) ticks
  end.

(** The object of Scenario A with the latch of Fajr set. *)
Definition SCENARIO_A_LATCHED : MasjidDisplay :=
  set_beep_played (<["Fajr" := true]> beep_played_init) SCENARIO_A.

(** The event kind of a result of the scheduler. *)
Definition kind_of (res : option string * Z * Z * Z * bool) : option string :=
  res.1.1.1.1.

(** Scenario B: a Friday (the third of January 2025) whose row has both
    Dhuhr at 13:00 and Jummah at 13:30. *)
Definition ROW_SCENARIO_B : gmap string string :=
  <["Date" := "2025-01-03"]> (<["Fajr" := "05:30"]> (<["Dhuhr" := "13:00"]>
  (<["Jummah" := "13:30"]> ∅))).

Definition SCENARIO_B : MasjidDisplay := loaded [ROW_SCENARIO_B] 739254.

(** A Friday whose row gives the midday time under the regular name only. *)
Definition ROW_FRIDAY_DHUHR : gmap string string :=
  <["Date" := "2025-01-03"]> (<["Fajr" := "05:30"]> (<["Dhuhr" := "13:00"]> ∅)).

Definition FRIDAY_DHUHR : MasjidDisplay := loaded [ROW_FRIDAY_DHUHR] 739254.

(** ** Loaded stores *)

(** What the entries of a day in a loaded store are: no date among them,
    and each time the empty text or a 12-hour text that reads back. *)
Definition entries_ok (entries : gmap string string) : Prop :=
  entries !! "Date" = None
  ∧ ∀ key v, entries !! key = Some v →
      v = ""
      ∨ ∃ c, clock_ok c ∧ v = strftime_I_M_p c ∧ strptime_I_M_p v = Some c.

(** ** The driving loop *)

(** The object holds, as the events of the day, the row the store has for
    its current date. *)
Definition fresh (a : app) : Prop :=
  today_prayers (display a)
  = get_today_prayer_times (current_date a) (prayer_times (display a)).

(** The keys played by the turns of the loop, turn by turn, for the instants
    and dates the clock gives them. *)
Fixpoint loop (a : app) (clock : list (datetime * Z)) : list (list string) :=
  match clock with
  | [] => []
  | (current_time, new_date) :: clock =>
      let '(a, keys) := update_state a current_time new_date in
      keys :: loop a clock
  end.

(** The ticks of those turns: the instant of each and the events of the
    day the object holds when its tick is made. *)
Fixpoint ticks_of (a : app) (clock : list (datetime * Z)) : list tick :=
  match clock with
  | [] => []
  | (current_time, new_date) :: clock =>
      let '(a', _) := update_state a current_time new_date in
      Tick current_time (today_prayers (display a')) :: ticks_of a' clock
  end.

(** The key of a candidate of the scheduler. *)
Definition candidate_key (prayer : string) (is_iqamah_event : bool) : string :=
  if is_iqamah_event then prayer +:+ "_Iqamah" else prayer.

(** * Properties *)

(** ** Dates and times of day *)

Section Time.

Implicit Types (now dt : datetime) (c : clock).

Lemma DAY_pos : 0 < DAY.
Proof. reflexivity. Qed.

Lemma date_of_bounds dt : date_of dt * DAY ≤ dt < (date_of dt + 1) * DAY.
Proof.
  unfold date_of. pose proof (Z.div_mod dt DAY) as Hdm.
  pose proof (Z.mod_pos_bound dt DAY DAY_pos). lia.
Qed.

Lemma date_of_unique dt d : d * DAY ≤ dt < (d + 1) * DAY → date_of dt = d.
Proof.
  intros Hd. pose proof (date_of_bounds dt) as Hb. pose proof DAY_pos.
  destruct (Z.lt_trichotomy (date_of dt) d) as [Hlt | [Heq | Hgt]];
    [exfalso | exact Heq | exfalso]; nia.
Qed.

Lemma date_of_next_day dt : date_of (dt + days 1) = date_of dt + 1.
Proof.
  apply date_of_unique. pose proof (date_of_bounds dt). unfold days. lia.
Qed.

Lemma replace_date_bounds c dt :
  clock_ok c →
  date_of dt * DAY ≤ replace_date c dt < (date_of dt + 1) * DAY.
Proof.
  intros [Hh Hm]. unfold replace_date, HOUR, MINUTE, DAY, SECOND. lia.
Qed.

(** The event of a clock falls on the day of the instant it is attached
    to. *)
Lemma replace_date_same_day c dt :
  clock_ok c → date_of (replace_date c dt) = date_of dt.
Proof. intros Hc. apply date_of_unique, replace_date_bounds, Hc. Qed.

Lemma replace_date_next_day c now :
  clock_ok c → now < replace_date c (now + days 1).
Proof.
  intros Hc. pose proof (replace_date_bounds c (now + days 1) Hc) as Hb.
  rewrite date_of_next_day in Hb. pose proof (date_of_bounds now). lia.
Qed.

End Time.

(** ** What [strptime] accepts *)

Section Strptime.

Lemma in_range_digit lo hi a : in_range lo hi a = true → lo ≤ digit a ≤ hi.
Proof. unfold in_range, digit. lia. Qed.

Lemma is_digit_digit a : is_digit a = true → 0 ≤ digit a ≤ 9.
Proof. unfold is_digit, digit. lia. Qed.

Lemma elem_of_one p s a rest :
  (a, rest) ∈ one p s → p a = true ∧ s = String a rest.
Proof.
  destruct s as [|c s']; simpl; [by intros ?%elem_of_nil|].
  destruct (p c) eqn:Hp; [|by intros ?%elem_of_nil].
  intros H%list_elem_of_singleton. injection H as -> ->. done.
Qed.

Lemma elem_of_two p1 p2 s n rest :
  (n, rest) ∈ two p1 p2 s →
  ∃ a b, p1 a = true ∧ p2 b = true ∧ n = 10 * digit a + digit b.
Proof.
  unfold two. intros ([a s1] & H1 & Ha)%list_elem_of_bind.
  apply list_elem_of_bind in H1 as ([b s2] & H2 & Hb).
  apply list_elem_of_singleton in H2. injection H2 as -> ->.
  apply elem_of_one in Ha as [Ha _]. apply elem_of_one in Hb as [Hb _].
  eauto.
Qed.

Lemma elem_of_single p s n rest :
  (n, rest) ∈ single p s → ∃ a, p a = true ∧ n = digit a.
Proof.
  unfold single. intros ([a s1] & H1 & Ha)%list_elem_of_bind.
  apply list_elem_of_singleton in H1. injection H1 as -> ->.
  apply elem_of_one in Ha as [Ha _]. eauto.
Qed.

Lemma re_I_range s i rest : (i, rest) ∈ re_I s → 1 ≤ i ≤ 12.
Proof.
  unfold re_I. rewrite !elem_of_app.
  intros [H | [H | H]].
  - apply elem_of_two in H as (a & b & Ha%in_range_digit & Hb%in_range_digit & ->).
    lia.
  - apply elem_of_two in H as (a & b & Ha%in_range_digit & Hb%in_range_digit & ->).
    lia.
  - apply elem_of_single in H as (a & Ha%in_range_digit & ->). lia.
Qed.

Lemma re_H_range s h rest : (h, rest) ∈ re_H s → 0 ≤ h ≤ 23.
Proof.
  unfold re_H. rewrite !elem_of_app.
  intros [H | [H | H]].
  - apply elem_of_two in H as (a & b & Ha%in_range_digit & Hb%in_range_digit & ->).
    lia.
  - apply elem_of_two in H as (a & b & Ha%in_range_digit & Hb%is_digit_digit & ->).
    lia.
  - apply elem_of_single in H as (a & Ha%is_digit_digit & ->). lia.
Qed.

Lemma re_M_range s m rest : (m, rest) ∈ re_M s → 0 ≤ m ≤ 59.
Proof.
  unfold re_M. rewrite !elem_of_app.
  intros [H | H].
  - apply elem_of_two in H as (a & b & Ha%in_range_digit & Hb%is_digit_digit & ->).
    lia.
  - apply elem_of_single in H as (a & Ha%is_digit_digit & ->). lia.
Qed.

(** Every clock read with ['%I:%M %p'] is a time of day. *)
Lemma strptime_I_M_p_ok s c : strptime_I_M_p s = Some c → clock_ok c.
Proof.
  unfold strptime_I_M_p.
  destruct (re_I_M_p s) as [|[[[i m] pm] rest] l] eqn:Hre; [done|].
  assert ((i, m, pm, rest) ∈ re_I_M_p s) as Hin by (rewrite Hre; left).
  unfold re_I_M_p in Hin.
  apply list_elem_of_bind in Hin as ([i' s1] & Hin & Hi).
  apply list_elem_of_bind in Hin as (s2 & Hin & _).
  apply list_elem_of_bind in Hin as ([m' s3] & Hin & Hm).
  apply list_elem_of_bind in Hin as (s4 & Hin & _).
  apply list_elem_of_bind in Hin as ([pm' s5] & Hin & _).
  apply list_elem_of_singleton in Hin. injection Hin as <- <- <- <-.
  apply re_I_range in Hi. apply re_M_range in Hm.
  destruct rest; [|done]. intros [= <-]. unfold clock_ok; simpl.
  destruct pm, (Z.eqb_spec i 12); lia.
Qed.

(** Every clock read with ['%H:%M'] is a time of day. *)
Lemma strptime_H_M_ok s c : strptime_H_M s = Some c → clock_ok c.
Proof.
  unfold strptime_H_M.
  destruct (re_H_M s) as [|[[h m] rest] l] eqn:Hre; [done|].
  assert ((h, m, rest) ∈ re_H_M s) as Hin by (rewrite Hre; left).
  unfold re_H_M in Hin.
  apply list_elem_of_bind in Hin as ([h' s1] & Hin & Hh).
  apply list_elem_of_bind in Hin as (s2 & Hin & _).
  apply list_elem_of_bind in Hin as ([m' s3] & Hin & Hm).
  apply list_elem_of_singleton in Hin. injection Hin as <- <- <-.
  apply re_H_range in Hh. apply re_M_range in Hm.
  destruct rest; [|done]. intros [= <-]. unfold clock_ok; simpl. lia.
Qed.

Lemma strptime_I_M_p_empty : strptime_I_M_p "" = None.
Proof. reflexivity. Qed.

Lemma nonempty_false s : nonempty s = false → s = "".
Proof.
  unfold nonempty. destruct (String.eqb_spec s ""); [done | discriminate].
Qed.

End Strptime.

(** ** Calendar store *)

Section Store.

Implicit Types (rows : list csv_row) (row : csv_row).
Implicit Types (store acc : gmap (option string) (gmap string string)).

Lemma elem_of_clocks c : clock_ok c → c ∈ clocks.
Proof.
  destruct c as [h m]. intros [Hh Hm]; simpl in *. unfold clocks.
  apply list_elem_of_bind. exists h. split; [|apply elem_of_seqZ; lia].
  apply list_elem_of_bind. exists m. split; [|apply elem_of_seqZ; lia].
  apply list_elem_of_singleton. reflexivity.
Qed.

Lemma normalizes_clocks : forallb normalizes clocks = true.
Proof. vm_compute. reflexivity. Qed.

(** A time of day written [HH:MM] is stored in its 12-hour form, and the
    stored text reads back as the same time of day. *)
Lemma format_prayer_time_clock c :
  clock_ok c →
  format_prayer_time (text_H_M c) = strftime_I_M_p c
  ∧ strptime_I_M_p (strftime_I_M_p c) = Some c.
Proof.
  intros Hc%elem_of_clocks. pose proof normalizes_clocks as Hall.
  rewrite forallb_forall in Hall. apply list_elem_of_In, Hall in Hc.
  unfold normalizes in Hc. apply andb_prop in Hc as [Hf Hp].
  apply String.eqb_eq in Hf. split; [exact Hf|].
  destruct (strptime_I_M_p (strftime_I_M_p c)) as [[h' m']|]; [|done].
  destruct c as [h m]; simpl in Hp. f_equal. f_equal; lia.
Qed.

Lemma format_prayer_time_unparseable s :
  strptime_H_M s = None → format_prayer_time s = "".
Proof.
  intros Hs. unfold format_prayer_time. rewrite Hs. by destruct (nonempty s).
Qed.

(** Whatever the value, the stored text is empty or a 12-hour time. *)
Lemma format_prayer_time_cases s :
  format_prayer_time s = ""
  ∨ ∃ c, clock_ok c ∧ strptime_H_M s = Some c
         ∧ format_prayer_time s = strftime_I_M_p c.
Proof.
  unfold format_prayer_time. destruct (nonempty s); simpl; [|by left].
  destruct (strptime_H_M s) as [c|] eqn:Hs; [|by left].
  right. exists c. eauto using strptime_H_M_ok.
Qed.

Lemma load_rows_total rows acc :
  (∀ r, r ∈ rows → rest r = [] ∧ is_Some (cells r !! "Date")) →
  ∃ store, load_rows rows acc = Ok store.
Proof.
  revert acc. induction rows as [|row rows IH]; intros acc Hdate; simpl.
  - by exists acc.
  - destruct (Hdate row) as [Hrest [d Hd]]; [left|].
    unfold load_row. rewrite Hrest, Hd. apply IH.
    intros r Hr. apply Hdate. by right.
Qed.

Lemma load_rows_absent rows acc store d :
  load_rows rows acc = Ok store →
  (∀ r, r ∈ rows → cells r !! "Date" ≠ Some d) →
  store !! d = acc !! d.
Proof.
  revert acc. induction rows as [|row rows IH]; intros acc; simpl.
  - by intros [= ->] _.
  - unfold load_row. destruct (rest row); [|done].
    destruct (cells row !! "Date") as [d'|] eqn:Hd'; [|done].
    intros Hload Hno. rewrite (IH _ Hload).
    + apply lookup_insert_ne. intros ->. by apply (Hno row); [left|].
    + intros r Hr. apply Hno. by right.
Qed.

Lemma load_rows_present rows acc store i row d :
  load_rows rows acc = Ok store →
  rows !! i = Some row →
  cells row !! "Date" = Some d →
  (∀ j r, (i < j)%nat → rows !! j = Some r → cells r !! "Date" ≠ Some d) →
  store !! d = Some (format_prayer_time_cell <$> delete "Date" (cells row)).
Proof.
  revert acc i. induction rows as [|r0 rows IH]; intros acc i; [done|].
  destruct i as [|i]; simpl.
  - intros Hload [= ->] Hd Hlater. unfold load_row in Hload.
    destruct (rest row); [|done].
    rewrite Hd in Hload. rewrite (load_rows_absent _ _ _ _ Hload).
    + apply lookup_insert_eq.
    + intros r [j Hj]%list_elem_of_lookup.
      apply (Hlater (S j)); [lia | exact Hj].
  - unfold load_row. destruct (rest r0); [|done].
    destruct (cells r0 !! "Date") as [d0|]; [|done].
    intros Hload Hrow Hd Hlater. apply (IH _ _ Hload Hrow Hd).
    intros j r Hij Hj. apply (Hlater (S j)); [lia | exact Hj].
Qed.

End Store.

(** C9, as stated, fails: a source in which the line of a date has a cell
    more than the header has columns is a calendar source with that date
    present, and loading it raises [TypeError]. *)
Lemma overlong_line_counterexample :
  cells OVERLONG_ROW !! "Date" = Some (Some "2025-01-01")
  ∧ rest OVERLONG_ROW = ["06:45"]
  ∧ load_prayer_times (Some [OVERLONG_ROW]) = TypeError.
Proof. vm_compute. done. Qed.

(** C9, amended. For every calendar source that has a date column and no
    line longer than its header: loading it and looking up a date of the
    source returns the event entries of the row of that date (the last
    one, should the date be repeated): the cells of the row other than the
    date, each value passed through [format_prayer_time], which turns a
    24-hour [HH:MM] into the 12-hour [HH:MM AM/PM] ("05:30" into
    "05:30 AM") and an empty, missing or unparseable value into the empty
    text that every reader takes for an absent time; a missing source
    loads as the empty store, and a date that is not in the source is
    looked up as [None]. *)
Theorem calendar_store_round_trip
    (rows : list csv_row) (i : nat) (row : csv_row) (d : string) :
  (∀ r, r ∈ rows → rest r = [] ∧ is_Some (cells r !! "Date")) →
  rows !! i = Some row →
  cells row !! "Date" = Some (Some d) →
  (∀ j r, (i < j)%nat → rows !! j = Some r →
          cells r !! "Date" ≠ Some (Some d)) →
  ∃ store,
    load_prayer_times (Some rows) = Ok store
    ∧ store !! Some d
      = Some (format_prayer_time_cell <$> delete "Date" (cells row))
    ∧ (∀ today, strftime_Y_m_d today = d →
         get_today_prayer_times today store
         = Some (format_prayer_time_cell <$> delete "Date" (cells row)))
    ∧ (∀ today entries key,
         strftime_Y_m_d today = d →
         get_today_prayer_times today store = Some entries →
         key ≠ "Date" →
         entries !! key = format_prayer_time_cell <$> cells row !! key)
    ∧ (∀ today,
         (∀ r, r ∈ rows →
               cells r !! "Date" ≠ Some (Some (strftime_Y_m_d today))) →
         get_today_prayer_times today store = None)
    ∧ load_prayer_times None = Ok ∅
    ∧ (∀ today, get_today_prayer_times today ∅ = None)
    ∧ (∀ c, clock_ok c →
         format_prayer_time (text_H_M c) = strftime_I_M_p c
         ∧ strptime_I_M_p (strftime_I_M_p c) = Some c)
    ∧ format_prayer_time "05:30" = "05:30 AM"
    ∧ format_prayer_time "" = ""
    ∧ format_prayer_time_cell None = ""
    ∧ (∀ s, strptime_H_M s = None → format_prayer_time s = "")
    ∧ (∀ s, format_prayer_time s = ""
            ∨ ∃ c, clock_ok c ∧ strptime_H_M s = Some c
                   ∧ format_prayer_time s = strftime_I_M_p c)
    ∧ (∀ (entries : gmap string string) key,
         entries !! key = Some "" →
         get entries key = get (delete key entries) key).
Proof.
  intros Hdate Hrow Hd Hlater.
  destruct (load_rows_total rows ∅ Hdate) as [store Hload].
  pose proof (load_rows_present _ _ _ _ _ _ Hload Hrow Hd Hlater) as Hfound.
  exists store. split_and!.
  - exact Hload.
  - exact Hfound.
  - intros today <-. exact Hfound.
  - intros today entries key <-. unfold get_today_prayer_times.
    rewrite Hfound. intros [= <-] Hkey.
    by rewrite lookup_fmap, lookup_delete_ne.
  - intros today Hno. unfold get_today_prayer_times.
    by rewrite (load_rows_absent _ _ _ _ Hload Hno).
  - reflexivity.
  - intros today. apply lookup_empty.
  - apply format_prayer_time_clock.
  - reflexivity.
  - reflexivity.
  - reflexivity.
  - apply format_prayer_time_unparseable.
  - apply format_prayer_time_cases.
  - intros entries key Hkey. unfold get. by rewrite Hkey, lookup_delete_eq.
Qed.

Lemma calendar_store_round_trip_witness :
  ∃ store,
    load_prayer_times (Some [full_line ROW_2025_01_01]) = Ok store
    ∧ get_today_prayer_times 739252 store
      = Some (format_prayer_time_cell
                <$> delete "Date" (cells (full_line ROW_2025_01_01))).
Proof.
  destruct (calendar_store_round_trip [full_line ROW_2025_01_01] 0
              (full_line ROW_2025_01_01) "2025-01-01")
    as (store & Hload & _ & Htoday & _).
  - intros r Hr. apply list_elem_of_singleton in Hr. rewrite Hr.
    split; [reflexivity|]. exists (Some "2025-01-01"). reflexivity.
  - reflexivity.
  - reflexivity.
  - intros j r Hj. destruct j as [|j]; [lia | discriminate].
  - exists store. split; [exact Hload | apply Htoday; reflexivity].
Defined.

(** ** Lunar date resolver *)

Lemma replace_date_le_time_of_day c now :
  (replace_date c now <=? now)
  = (hour c * HOUR + minute c * MINUTE <=? time_of_day now).
Proof.
  unfold replace_date, date_of, time_of_day, HOUR, MINUTE, DAY, SECOND.
  apply eq_iff_eq_true. rewrite !Z.leb_le.
  pose proof (Z.div_mod now (86400 * 1000000)). lia.
Qed.

(** C3. The resolver converts the civil date [d + 1 + k] when the Maghrib
    time of the day is present and parseable and the instant is at or after
    it on its date [d], and [d + k] when that time is absent or unparseable
    or the instant is before it, [k] being the manual offset; the day is
    advanced before the offset is added, and an unparseable time raises
    nothing. *)
Theorem islamic_date_rollover (to_hijri : Z → Z → Z → hijri)
    (self : MasjidDisplay) (now : datetime) :
  let d := date_of now in
  let k := islamic_date_offset self in
  let advance :=
    match maghrib_clock self with
    | Some b => if replace_date b now <=? now then 1 else 0
    | None => 0
    end in
  date_to_convert self now = d + advance + k
  ∧ _get_islamic_date to_hijri self now
    = (let '(year, month, day) := ord2ymd (d + advance + k) in
       hijri_tuple (to_hijri year month day))
  ∧ (∀ b, (replace_date b now <=? now)
          = (hour b * HOUR + minute b * MINUTE <=? time_of_day now)).
Proof.
  intros d k advance.
  assert (date_to_convert self now = d + advance + k) as Hdate.
  { unfold date_to_convert, advance, maghrib_clock, d, k.
    destruct (today_prayers self) as [today|]; simpl; [|lia].
    case_bool_decide as Hempty.
    - subst today. unfold get. rewrite lookup_empty. simpl. lia.
    - destruct (nonempty (get today "Maghrib")) eqn:Hne.
      + destruct (strptime_I_M_p (get today "Maghrib")) as [b|]; [|lia].
        destruct (replace_date b now <=? now); lia.
      + apply nonempty_false in Hne. rewrite Hne. simpl. lia. }
  split_and!.
  - exact Hdate.
  - unfold _get_islamic_date. by rewrite Hdate.
  - intros b. apply replace_date_le_time_of_day.
Qed.

(** The day of the source row, before and at its Maghrib (05:45 PM). *)
Example islamic_date_before_maghrib :
  date_to_convert (loaded [ROW_2025_01_01] 739252) (instant 739252 17 44 59)
  = 739252 - 1.
Proof. vm_compute. reflexivity. Qed.

Example islamic_date_at_maghrib :
  date_to_convert (loaded [ROW_2025_01_01] 739252) (instant 739252 17 45 0)
  = 739252 + 1 - 1.
Proof. vm_compute. reflexivity. Qed.

(** ** Event scheduler *)

Section Scheduler.

Implicit Types (now : datetime) (today : gmap string string).
Implicit Types (cands : list candidate) (acc : scan).

Lemma foldl_bind {A B C} (f : A → B → A) (g : C → list B) (a : A)
    (l : list C) :
  foldl f a (l ≫= g) = foldl (λ a x, foldl f a (g x)) a l.
Proof.
  revert a. induction l as [|x l IH]; intros a; [done|].
  change ((x :: l) ≫= g) with (g x ++ (l ≫= g)).
  by rewrite foldl_app, IH.
Qed.

Lemma foldl_pointwise {A B} (f g : A → B → A) (a : A) (l : list B) :
  (∀ a x, f a x = g a x) → foldl f a l = foldl g a l.
Proof.
  intros Hfg. revert a. induction l as [|x l IH]; intros a; [done|].
  simpl. by rewrite Hfg, IH.
Qed.

Lemma check_event_nearer now prayer acc entry :
  check_event now prayer acc entry
  = foldl (nearer now) acc (entry_candidates now prayer entry).
Proof.
  destruct entry as [time_str is_iqamah_event].
  unfold check_event, entry_candidates. simpl.
  by destruct (strptime_I_M_p time_str).
Qed.

Lemma check_prayer_nearer today now is_friday acc prayer :
  check_prayer today now is_friday acc prayer
  = foldl (nearer now) acc (prayer_candidates today now is_friday prayer).
Proof.
  unfold check_prayer, prayer_candidates.
  destruct (negb is_friday && String.eqb prayer "Jummah"); [done|].
  rewrite foldl_bind. apply foldl_pointwise, check_event_nearer.
Qed.

(** The loops of the scheduler select among the candidates, one by one. *)
Lemma events_today_candidates today now :
  events_today today now
  = foldl (nearer now) scan_init (candidates today now).
Proof.
  unfold events_today, candidates. rewrite foldl_bind.
  apply foldl_pointwise. intros acc prayer. apply check_prayer_nearer.
Qed.

Lemma nearer_is_nearest now cands acc c :
  is_nearest now cands acc → is_nearest now (cands ++ [c]) (nearer now acc c).
Proof.
  destruct c as [[prayer iq] t]. destruct acc as [ev least iq0].
  unfold is_nearest, nearer; simpl.
  destruct ev as [prayer0|].
  - intros (i & t0 & Hi & Hnow & -> & Hmin).
    pose proof (lookup_lt_Some _ _ _ Hi) as Hlen.
    destruct (Z.ltb_spec now t) as [Hfuture|Hpast];
      [destruct (Z.ltb_spec (t - now) (t0 - now)) as [Hless|Hmore]|]; simpl.
    + exists (length cands), t. split_and!; [|done|done|].
      { by rewrite lookup_app_r, Nat.sub_diag. }
      intros j p' iq' t' [[Hj Hc] | [-> [= <- <- <-]]]%lookup_snoc_Some Ht'.
      * destruct (Hmin _ _ _ _ Hc Ht'). lia.
      * lia.
    + exists i, t0. split_and!; [|done|done|].
      { by apply lookup_app_l_Some. }
      intros j p' iq' t' [[Hj Hc] | [-> [= <- <- <-]]]%lookup_snoc_Some Ht'.
      * by apply (Hmin _ _ _ _ Hc).
      * lia.
    + exists i, t0. split_and!; [|done|done|].
      { by apply lookup_app_l_Some. }
      intros j p' iq' t' [[Hj Hc] | [-> [= <- <- <-]]]%lookup_snoc_Some Ht'.
      * by apply (Hmin _ _ _ _ Hc).
      * lia.
  - intros [[= -> ->] Hpast].
    destruct (Z.ltb_spec now t) as [Hfuture|Hnot]; simpl.
    + exists (length cands), t. split_and!; [|done|done|].
      { by rewrite lookup_app_r, Nat.sub_diag. }
      intros j p' iq' t' [[Hj Hc] | [-> [= <- <- <-]]]%lookup_snoc_Some Ht'.
      * apply list_elem_of_lookup_2 in Hc. apply Hpast in Hc. lia.
      * lia.
    + split; [done|].
      intros p' iq' t' [Hc | Hc%list_elem_of_singleton]%elem_of_app.
      * by apply (Hpast p' iq').
      * injection Hc as -> -> ->. lia.
Qed.

Lemma foldl_nearer_is_nearest now cands :
  is_nearest now cands (foldl (nearer now) scan_init cands).
Proof.
  induction cands as [|c cands IH] using rev_ind.
  - split; [done|]. by intros p iq t ?%elem_of_nil.
  - rewrite foldl_snoc. by apply nearer_is_nearest.
Qed.

(** Each candidate is a timestamp of the day of [now], of a prayer of the
    ordered list. *)
Lemma candidates_today today now prayer iq t :
  (prayer, iq, t) ∈ candidates today now →
  date_of t = date_of now ∧ prayer ∈ prayer_order (weekday now =? 4).
Proof.
  unfold candidates. intros (prayer0 & Hc & Hp)%list_elem_of_bind.
  unfold prayer_candidates in Hc.
  destruct (negb (weekday now =? 4) && String.eqb prayer0 "Jummah");
    [by apply elem_of_nil in Hc|].
  apply list_elem_of_bind in Hc as ([time_str iq0] & Hc & _).
  unfold entry_candidates in Hc; simpl in Hc.
  destruct (strptime_I_M_p time_str) as [parsed|] eqn:Hparse;
    [|by apply elem_of_nil in Hc].
  apply list_elem_of_singleton in Hc. injection Hc as -> -> ->.
  split; [|done]. by eapply replace_date_same_day, strptime_I_M_p_ok.
Qed.

(** The countdown of a positive difference. *)
Lemma format_result_positive prayer diff iq :
  0 < diff →
  let total := diff `div` SECOND + 1 in
  ∃ hours minutes secs,
    format_result (Scan (Some prayer) (Some diff) iq)
    = (Some prayer, hours, minutes, secs, iq)
    ∧ 0 ≤ hours ∧ 0 ≤ minutes < 60 ∧ 0 ≤ secs < 60
    ∧ hours * 3600 + minutes * 60 + secs = total.
Proof.
  intros Hpos total. unfold format_result; simpl.
  destruct (Z.eqb_spec diff 0) as [->|_]; [lia|].
  assert (total_seconds_int diff + 1 = total) as ->.
  { unfold total, total_seconds_int. rewrite Z.quot_div_nonneg; [done|lia|].
    reflexivity. }
  assert (0 < total).
  { unfold total. pose proof (Z.div_pos diff SECOND). unfold SECOND in *. lia. }
  eexists _, _, _. split; [reflexivity|].
  pose proof (Z.div_mod total 3600). pose proof (Z.mod_pos_bound total 3600).
  pose proof (Z.div_mod (total `mod` 3600) 60).
  pose proof (Z.mod_pos_bound (total `mod` 3600) 60).
  pose proof (Z.div_pos total 3600).
  pose proof (Z.div_pos (total `mod` 3600) 60).
  pose proof (Z.div_lt_upper_bound (total `mod` 3600) 60 60).
  lia.
Qed.

(** What the lookahead leaves is an event after [now]. *)
Lemma next_day_fajr_future self today now prayer least iq :
  next_day_fajr self now (events_today today now) = Scan (Some prayer) least iq →
  ∃ diff, least = Some diff ∧ 0 < diff.
Proof.
  pose proof (foldl_nearer_is_nearest now (candidates today now)) as Hnear.
  rewrite <- events_today_candidates in Hnear.
  unfold next_day_fajr, is_nearest in *.
  destruct (events_today today now) as [ev least0 iq0]; simpl in *.
  destruct ev as [prayer0|].
  - destruct Hnear as (i & t & _ & Hnow & -> & _).
    intros [= <- <- <-]. exists (t - now). split; [done | lia].
  - destruct (prayer_times self !! _) as [next_day_prayers|]; [|done].
    case_bool_decide; [done|].
    destruct (nonempty _); [|done].
    destruct (strptime_I_M_p _) as [parsed|] eqn:Hparse; [|done].
    intros [= <- <- <-]. eexists. split; [done|].
    apply strptime_I_M_p_ok in Hparse.
    pose proof (replace_date_next_day parsed now Hparse). lia.
Qed.

End Scheduler.

Lemma get_time_until_next_event_today self today now :
  today_prayers self = Some today → today ≠ ∅ →
  _get_time_until_next_event self now
  = format_result (next_day_fajr self now (events_today today now)).
Proof.
  intros Htoday Hne. unfold _get_time_until_next_event. rewrite Htoday.
  by rewrite bool_decide_eq_false_2.
Qed.

(** Either no candidate lies after [now], or the scheduler returns the
    countdown to a candidate that no candidate after [now] precedes. *)
Lemma nearest_or_none self today now :
  today_prayers self = Some today → today ≠ ∅ →
  (∀ prayer iq t, (prayer, iq, t) ∈ candidates today now → t ≤ now)
  ∨ ∃ prayer iq t,
      _get_time_until_next_event self now
      = format_result (Scan (Some prayer) (Some (t - now)) iq)
      ∧ now < t
      ∧ ∀ (j : nat) prayer' iq' t',
          candidates today now !! j = Some (prayer', iq', t') → now < t' →
          t ≤ t'.
Proof.
  intros Htoday Hne.
  rewrite (get_time_until_next_event_today _ _ _ Htoday Hne).
  pose proof (foldl_nearer_is_nearest now (candidates today now)) as Hnear.
  rewrite <- events_today_candidates in Hnear.
  unfold is_nearest, next_day_fajr in *.
  destruct (events_today today now) as [ev least iq]; simpl in *.
  destruct ev as [prayer|]; [right | left; by destruct Hnear].
  destruct Hnear as (i & t & Hi & Hnow & -> & Hmin).
  exists prayer, iq, t. split_and!; [done..|].
  intros j p' iq' t' Hj Ht'. by destruct (Hmin _ _ _ _ Hj Ht').
Qed.

(** C2. With the events of the day present, the scheduler considers the
    timestamps collected on the day of [now], and among those strictly after
    [now] it selects the one of least difference to [now], the earliest of
    the ordered list among equals; it returns that candidate, and whatever
    it returns, from the day or from the lookahead, lies strictly after
    [now]. *)
Theorem next_event_is_nearest (self : MasjidDisplay)
    (today : gmap string string) (now : datetime) :
  today_prayers self = Some today →
  today ≠ ∅ →
  let cands := candidates today now in
  let found := events_today today now in
  (∀ prayer iq t, (prayer, iq, t) ∈ cands →
     date_of t = date_of now ∧ prayer ∈ prayer_order (weekday now =? 4))
  ∧ match next_event found with
    | Some prayer =>
        ∃ (i : nat) t,
          cands !! i = Some (prayer, is_iqamah found, t)
          ∧ now < t
          ∧ (∀ (j : nat) prayer' iq' t',
               cands !! j = Some (prayer', iq', t') → now < t' →
               t ≤ t' ∧ ((j < i)%nat → t < t'))
          ∧ _get_time_until_next_event self now
            = format_result (Scan (Some prayer) (Some (t - now)) (is_iqamah found))
          ∧ fst (fst (fst (fst (_get_time_until_next_event self now))))
            = Some prayer
    | None => ∀ prayer' iq' t', (prayer', iq', t') ∈ cands → t' ≤ now
    end
  ∧ (∀ prayer least iq,
       next_day_fajr self now found = Scan (Some prayer) least iq →
       ∃ diff, least = Some diff ∧ 0 < diff).
Proof.
  intros Htoday Hne cands found. split_and!.
  - apply candidates_today.
  - pose proof (foldl_nearer_is_nearest now cands) as Hnear.
    unfold cands in Hnear. rewrite <- events_today_candidates in Hnear.
    fold found cands in Hnear. unfold is_nearest in Hnear.
    destruct (next_event found) as [prayer|] eqn:Hev; [|by destruct Hnear].
    destruct Hnear as (i & t & Hi & Hnow & Hdiff & Hmin).
    assert (_get_time_until_next_event self now
            = format_result (Scan (Some prayer) (Some (t - now)) (is_iqamah found)))
      as Hres.
    { rewrite (get_time_until_next_event_today _ _ _ Htoday Hne).
      fold found. unfold next_day_fajr. rewrite Hev.
      destruct found as [ev least iq]; simpl in *. by subst. }
    exists i, t. split_and!; try done.
    rewrite Hres.
    destruct (format_result_positive prayer (t - now) (is_iqamah found))
      as (h & m & s & -> & _); [lia | done].
  - apply next_day_fajr_future.
Qed.

Lemma next_event_is_nearest_witness :
  ∃ (i : nat) t,
    candidates (format_prayer_time <$> delete "Date" ROW_SCENARIO_A)
      (instant 739252 4 0 0) !! i = Some ("Fajr", false, t)
    ∧ instant 739252 4 0 0 < t.
Proof.
  pose proof (next_event_is_nearest SCENARIO_A
                (format_prayer_time <$> delete "Date" ROW_SCENARIO_A)
                (instant 739252 4 0 0)) as H.
  destruct H as (_ & H & _).
  - vm_compute. reflexivity.
  - intros Hempty. apply (f_equal (λ m : gmap string string, m !! "Fajr")) in Hempty.
    vm_compute in Hempty. discriminate Hempty.
  - change (next_event (events_today
              (format_prayer_time <$> delete "Date" ROW_SCENARIO_A)
              (instant 739252 4 0 0))) with (Some "Fajr") in H.
    destruct H as (i & t & Hi & Hnow & _).
    change (is_iqamah (events_today
              (format_prayer_time <$> delete "Date" ROW_SCENARIO_A)
              (instant 739252 4 0 0))) with false in Hi.
    exists i, t. split; assumption.
Defined.

(** C4. For a selected event of positive difference [diff] to [now], the
    countdown returned is the number of whole seconds of [diff] plus one,
    as hours, minutes in [0, 60) and seconds in [0, 60) that add up to it;
    at 04:00 with Fajr at 05:30 it is 1 h 30 min 1 s. *)
Theorem countdown_decomposition (self : MasjidDisplay)
    (today : gmap string string) (now : datetime) (prayer : string)
    (diff : timedelta) (iq : bool) :
  today_prayers self = Some today →
  today ≠ ∅ →
  next_day_fajr self now (events_today today now)
  = Scan (Some prayer) (Some diff) iq →
  0 < diff →
  (∃ hours minutes secs,
     _get_time_until_next_event self now = (Some prayer, hours, minutes, secs, iq)
     ∧ 0 ≤ hours ∧ 0 ≤ minutes < 60 ∧ 0 ≤ secs < 60
     ∧ hours * 3600 + minutes * 60 + secs = diff `div` SECOND + 1)
  ∧ _get_time_until_next_event SCENARIO_A (instant 739252 4 0 0)
    = (Some "Fajr", 1, 30, 1, false).
Proof.
  intros Htoday Hne Hsel Hpos. split; [|by vm_compute].
  rewrite (get_time_until_next_event_today _ _ _ Htoday Hne), Hsel.
  by apply format_result_positive.
Qed.

Lemma countdown_decomposition_witness :
  ∃ hours minutes secs,
    _get_time_until_next_event SCENARIO_A (instant 739252 12 59 59)
    = (Some "Dhuhr", hours, minutes, secs, false)
    ∧ hours * 3600 + minutes * 60 + secs = 2.
Proof.
  destruct (countdown_decomposition SCENARIO_A
              (format_prayer_time <$> delete "Date" ROW_SCENARIO_A)
              (instant 739252 12 59 59) "Dhuhr" SECOND false)
    as [(h & m & s & Hres & _ & _ & _ & Hsum) _].
  - vm_compute. reflexivity.
  - intros Hempty. apply (f_equal (λ m : gmap string string, m !! "Fajr")) in Hempty.
    vm_compute in Hempty. discriminate Hempty.
  - vm_compute. reflexivity.
  - reflexivity.
  - exists h, m, s. split; [exact Hres | exact Hsum].
Defined.

Lemma next_day_fajr_unfold self now :
  next_day_fajr self now scan_init
  = match next_day_fajr_time self now with
    | Some fajr_time => Scan (Some "Fajr") (Some (fajr_time - now)) false
    | None => scan_init
    end.
Proof.
  unfold next_day_fajr, next_day_fajr_time; simpl.
  rewrite date_of_next_day.
  destruct (prayer_times self !! _) as [next_day_prayers|]; simpl; [|done].
  case_bool_decide as Hempty.
  - subst. unfold get. by rewrite lookup_empty.
  - destruct (nonempty (get next_day_prayers "Fajr")) eqn:Hne.
    + by destruct (strptime_I_M_p _).
    + apply nonempty_false in Hne. by rewrite Hne.
Qed.

Lemma next_day_fajr_time_next_day self now fajr_time :
  next_day_fajr_time self now = Some fajr_time →
  date_of fajr_time = date_of now + 1 ∧ now < fajr_time.
Proof.
  unfold next_day_fajr_time.
  destruct (prayer_times self !! _) as [next_day_prayers|]; simpl; [|done].
  destruct (strptime_I_M_p _) as [parsed|] eqn:Hparse; simpl; [|done].
  intros [= <-]. apply strptime_I_M_p_ok in Hparse. split.
  - by rewrite replace_date_same_day, date_of_next_day.
  - by apply replace_date_next_day.
Qed.

(** C7. When every timestamp collected for the day is at or before [now],
    the scheduler looks ahead to one timestamp only, the Fajr call time of
    the next calendar day: if that day is in the store with a Fajr time
    that is present and parseable, it returns Fajr, not as a congregation,
    with the countdown to that instant of the next day; otherwise it
    returns no event, as it does when the entry of the day is absent. *)
Theorem next_day_fajr_fallback (self : MasjidDisplay)
    (today : gmap string string) (now : datetime) :
  today_prayers self = Some today →
  today ≠ ∅ →
  (∀ prayer iq t, (prayer, iq, t) ∈ candidates today now → t ≤ now) →
  match next_day_fajr_time self now with
  | Some fajr_time =>
      date_of fajr_time = date_of now + 1
      ∧ now < fajr_time
      ∧ ∃ hours minutes secs,
          _get_time_until_next_event self now
          = (Some "Fajr", hours, minutes, secs, false)
          ∧ 0 ≤ hours ∧ 0 ≤ minutes < 60 ∧ 0 ≤ secs < 60
          ∧ hours * 3600 + minutes * 60 + secs
            = (fajr_time - now) `div` SECOND + 1
  | None => _get_time_until_next_event self now = no_event
  end
  ∧ (∀ absent : MasjidDisplay,
       truthy (today_prayers absent) = false →
       _get_time_until_next_event absent now = no_event).
Proof.
  intros Htoday Hne Hpast. split.
  - rewrite (get_time_until_next_event_today _ _ _ Htoday Hne).
    pose proof (foldl_nearer_is_nearest now (candidates today now)) as Hnear.
    rewrite <- events_today_candidates in Hnear. unfold is_nearest in Hnear.
    destruct (next_event (events_today today now)) as [prayer|].
    { destruct Hnear as (i & t & Hi%list_elem_of_lookup_2 & Hnow & _).
      apply Hpast in Hi. lia. }
    destruct Hnear as [-> _]. rewrite next_day_fajr_unfold.
    destruct (next_day_fajr_time self now) as [fajr_time|] eqn:Hfajr; [|done].
    apply next_day_fajr_time_next_day in Hfajr as [Hdate Hnow].
    split_and!; [done..|].
    apply format_result_positive. lia.
  - intros absent Habsent. unfold _get_time_until_next_event.
    destruct (today_prayers absent) as [m|]; simpl in *; [|done].
    case_bool_decide; [done | discriminate].
Qed.

Lemma next_day_fajr_fallback_witness :
  (∃ hours minutes secs,
     _get_time_until_next_event SCENARIO_C (instant 739252 13 0 0)
     = (Some "Fajr", hours, minutes, secs, false)
     ∧ hours * 3600 + minutes * 60 + secs = 16 * 3600 + 30 * 60 + 1)
  ∧ _get_time_until_next_event SCENARIO_A (instant 739252 13 0 0) = no_event.
Proof.
  split.
  - pose proof (next_day_fajr_fallback SCENARIO_C
                  (format_prayer_time <$> delete "Date" ROW_SCENARIO_A)
                  (instant 739252 13 0 0)) as [H _].
    + vm_compute. reflexivity.
    + intros Hempty.
      apply (f_equal (λ m : gmap string string, m !! "Fajr")) in Hempty.
      vm_compute in Hempty. discriminate Hempty.
    + intros prayer iq t Hin.
      apply list_elem_of_In in Hin. vm_compute in Hin.
      destruct Hin as [[= <- <- <-] | [[= <- <- <-] | []]]; vm_compute;
        discriminate.
    + change (next_day_fajr_time SCENARIO_C (instant 739252 13 0 0))
        with (Some (instant 739253 5 30 0)) in H.
      destruct H as (_ & _ & h & m & s & Hres & _ & _ & _ & Hsum).
      exists h, m, s. split; [exact Hres | exact Hsum].
  - pose proof (next_day_fajr_fallback SCENARIO_A
                  (format_prayer_time <$> delete "Date" ROW_SCENARIO_A)
                  (instant 739252 13 0 0)) as [H _].
    + vm_compute. reflexivity.
    + intros Hempty.
      apply (f_equal (λ m : gmap string string, m !! "Fajr")) in Hempty.
      vm_compute in Hempty. discriminate Hempty.
    + intros prayer iq t Hin.
      apply list_elem_of_In in Hin. vm_compute in Hin.
      destruct Hin as [[= <- <- <-] | [[= <- <- <-] | []]]; vm_compute;
        discriminate.
    + exact H.
Defined.

(** ** Signal trigger *)

Section Trigger.

Implicit Types (now : datetime) (today : gmap string string).
Implicit Types (sg : signals) (key : string).
Implicit Types (calls : list (string * string)).

Lemma check_and_play_checks today now sg :
  foldl (check_and_play today now) sg TRACKED
  = foldl (check now) sg (checks today now).
Proof.
  unfold checks. rewrite foldl_bind. apply foldl_pointwise.
  intros acc prayer. unfold check_and_play, prayer_checks.
  destruct (_ || _); [done|]. simpl.
  by destruct (nonempty _ && _).
Qed.

(** [check_time] on its own key, and on the others. *)
Lemma check_time_key now time_str key sg :
  let step := key_step now (event_of now time_str) (latches sg !! key) in
  latches (check_time now time_str key sg) !! key = step.1
  ∧ played (check_time now time_str key sg)
    = played sg ++ (if step.2 then [key] else [])
  ∧ ∀ key', key' ≠ key →
      latches (check_time now time_str key sg) !! key' = latches sg !! key'.
Proof.
  unfold check_time, event_of, key_step, latch.
  destruct (nonempty time_str) eqn:Hne; simpl.
  - destruct (strptime_I_M_p time_str) as [parsed|]; simpl;
      [|by rewrite app_nil_r].
    destruct (_ && _); [destruct (negb _)|destruct (_ <? _)]; simpl;
      rewrite ?app_nil_r, ?lookup_insert_eq; split_and!; try done;
      intros key' Hkey'; by rewrite lookup_insert_ne.
  - apply nonempty_false in Hne. subst. simpl. by rewrite app_nil_r.
Qed.

Lemma call_of_None calls key : key ∉ calls.*2 → call_of calls key = None.
Proof.
  induction calls as [|[time_str k] calls IH]; simpl; [done|].
  intros [Hk Hrest]%not_elem_of_cons.
  destruct (String.eqb_spec k key); [done | by apply IH].
Qed.

(** A run of calls with distinct keys acts on each key by the one call
    made for it. *)
Lemma foldl_check_key now calls sg key :
  NoDup calls.*2 →
  let step :=
    key_step now (call_of calls key ≫= event_of now) (latches sg !! key) in
  latches (foldl (check now) sg calls) !! key = step.1
  ∧ ∃ new,
      played (foldl (check now) sg calls) = played sg ++ new
      ∧ NoDup new
      ∧ (∀ k, k ∈ new → k ∈ calls.*2)
      ∧ (key ∈ new ↔ step.2 = true).
Proof.
  revert sg. induction calls as [|[time_str k] calls IH]; intros sg Hdup.
  - simpl. split; [done|]. exists []. rewrite app_nil_r.
    split_and!; [done | constructor | by intros k ?%elem_of_nil |].
    split; [by intros ?%elem_of_nil | done].
  - apply NoDup_cons in Hdup as [Hk Hdup].
    pose proof (check_time_key now time_str k sg) as (Hlatch & Hplayed & Hother).
    destruct (IH (check_time now time_str k sg) Hdup)
      as (IHlatch & new & IHplayed & IHdup & IHsub & IHkey).
    simpl foldl. unfold check at 2 4. simpl fst; simpl snd.
    simpl call_of. destruct (String.eqb_spec k key) as [->|Hne]; simpl.
    + rewrite (call_of_None calls key Hk) in IHlatch, IHkey. simpl in *.
      rewrite IHlatch, Hlatch. split; [done|].
      eexists. split; [by rewrite IHplayed, Hplayed, <- app_assoc|].
      assert (key ∉ new) as Hnew by (intros ?%IHsub; contradiction).
      split_and!.
      * apply NoDup_app. split_and!; [|intros k' Hk'|done].
        { destruct (key_step _ _ _).2; [apply NoDup_singleton|constructor]. }
        destruct (key_step _ _ _).2; [|by apply elem_of_nil in Hk'].
        apply list_elem_of_singleton in Hk'. by subst.
      * intros k' [Hk'|Hk']%elem_of_app; [|right; by apply IHsub].
        destruct (key_step _ _ _).2; [|by apply elem_of_nil in Hk'].
        apply list_elem_of_singleton in Hk'. subst. by left.
      * rewrite elem_of_app.
        destruct (key_step _ _ _).2;
          [split; [done | intros _; left; by left]|].
        split; [intros [?%elem_of_nil|?]; done | done].
    + rewrite (Hother key) in IHlatch, IHkey by done.
      split; [done|].
      eexists. split; [by rewrite IHplayed, Hplayed, <- app_assoc|].
      assert (k ∉ new) as Hnew by (intros ?%IHsub; contradiction).
      split_and!.
      * apply NoDup_app. split_and!; [|intros k' Hk'|done].
        { destruct (key_step _ _ _).2; [apply NoDup_singleton|constructor]. }
        destruct (key_step _ _ _).2; [|by apply elem_of_nil in Hk'].
        apply list_elem_of_singleton in Hk'. by subst.
      * intros k' [Hk'|Hk']%elem_of_app; [|right; by apply IHsub].
        destruct (key_step _ _ _).2; [|by apply elem_of_nil in Hk'].
        apply list_elem_of_singleton in Hk'. subst. by left.
      * rewrite elem_of_app, <- IHkey. split; [|by right].
        intros [Hk'|Hk']; [|done].
        destruct (key_step _ _ _).2; [|by apply elem_of_nil in Hk'].
        apply list_elem_of_singleton in Hk'. by subst.
Qed.

End Trigger.

Section Tick.

Implicit Types (now : datetime) (today : gmap string string).
Implicit Types (self : MasjidDisplay) (key prayer : string).

Ltac split_conditions :=
  repeat match goal with
         | |- context [if nonempty ?s && ?b then _ else _] =>
             destruct (nonempty s && b); simpl
         end.

Lemma tracked_today_cases now :
  tracked_today now
  = if weekday now =? 4 then ["Fajr"; "Asr"; "Maghrib"; "Isha"; "Jummah"]
    else ["Fajr"; "Dhuhr"; "Asr"; "Maghrib"; "Isha"].
Proof. unfold tracked_today. by destruct (weekday now =? 4). Qed.

(** The keys of the calls of a tick are distinct. *)
Lemma checks_NoDup today now : NoDup (checks today now).*2.
Proof.
  unfold checks, TRACKED, prayer_checks. simpl.
  destruct (weekday now =? 4); simpl; split_conditions;
    apply (bool_decide_unpack _); vm_compute; exact I.
Qed.

(** A tick acts on each key by [key_step], and plays no key twice. *)
Lemma tick_key self now key :
  let sg := _check_and_play_adhan self now in
  let step :=
    key_step now (key_event (today_prayers self) now key)
      (beep_played self !! key) in
  latches sg !! key = step.1
  ∧ (key ∈ played sg ↔ step.2 = true)
  ∧ NoDup (played sg).
Proof.
  unfold _check_and_play_adhan, key_event.
  destruct (today_prayers self) as [today|]; [case_bool_decide|]; cbv zeta.
  - simpl. split_and!; [done| |constructor].
    split; [by intros ?%elem_of_nil|done].
  - rewrite check_and_play_checks.
    destruct (foldl_check_key now (checks today now)
                (Signals (beep_played self) []) key (checks_NoDup today now))
      as (Hlatch & new & Hplayed & Hdup & _ & Hkey).
    rewrite Hplayed. split_and!; [exact Hlatch | exact Hkey | exact Hdup].
  - simpl. split_and!; [done| |constructor].
    split; [by intros ?%elem_of_nil|done].
Qed.

(** The event instants of the keys of a prayer that the tick does not
    skip: the Adhan time for the prayer, and the Iqamah time, when it is
    given and is another text, for its Iqamah. *)
Lemma key_event_adhan today now prayer :
  today ≠ ∅ →
  prayer ∈ tracked_today now →
  key_event (Some today) now prayer = event_of now (get today prayer).
Proof.
  intros Hne Hin. unfold key_event. rewrite bool_decide_eq_false_2 by done.
  rewrite tracked_today_cases in Hin.
  unfold checks, TRACKED, prayer_checks. simpl.
  destruct (weekday now =? 4); simpl;
    repeat (apply elem_of_cons in Hin as [->|Hin]; [by split_conditions|]);
    by apply elem_of_nil in Hin.
Qed.

Lemma key_event_iqamah today now prayer :
  today ≠ ∅ →
  prayer ∈ tracked_today now →
  nonempty (get today (prayer +:+ "_Iqamah")) = true →
  get today (prayer +:+ "_Iqamah") ≠ get today prayer →
  key_event (Some today) now (prayer +:+ "_Iqamah")
  = event_of now (get today (prayer +:+ "_Iqamah")).
Proof.
  intros Hne Hin Hiq Hdiff. unfold key_event.
  rewrite bool_decide_eq_false_2 by done.
  rewrite tracked_today_cases in Hin.
  apply String.eqb_neq in Hdiff.
  unfold checks, TRACKED, prayer_checks. simpl.
  destruct (weekday now =? 4); simpl;
    repeat (apply elem_of_cons in Hin as [->|Hin];
            [simpl in Hiq, Hdiff; rewrite Hiq, Hdiff; simpl;
             by split_conditions|]);
    by apply elem_of_nil in Hin.
Qed.

(** The keys of the variant that the day excludes have no event. *)
Lemma key_event_excluded today_prayers now :
  let excluded := if weekday now =? 4 then "Dhuhr" else "Jummah" in
  key_event today_prayers now excluded = None
  ∧ key_event today_prayers now (excluded +:+ "_Iqamah") = None.
Proof.
  unfold key_event. destruct today_prayers as [today|]; [|done].
  case_bool_decide; [done|].
  unfold checks, TRACKED, prayer_checks. simpl.
  destruct (weekday now =? 4); simpl; by split_conditions.
Qed.

End Tick.

(** *** Runs of the driving loop *)

Section Runs.

Implicit Types (self : MasjidDisplay) (ticks : list tick) (key : string).

Lemma key_step_fires now event_time entry :
  (key_step now event_time entry).2 = true →
  ∃ t, event_time = Some t ∧ t ≤ now < t + seconds 1
       ∧ default false entry = false
       ∧ (key_step now event_time entry).1 = Some true.
Proof.
  unfold key_step. destruct event_time as [t|]; [|done].
  destruct (Z.leb_spec t now), (Z.ltb_spec now (t + seconds 1)); simpl;
    try (by destruct (_ <? _)).
  destruct (default false entry); simpl; [done|].
  intros _. exists t. split_and!; (done || lia).
Qed.

Lemma key_step_latched now event_time :
  (key_step now event_time (Some true)).2 = false
  ∧ ((key_step now event_time (Some true)).1 = Some true
     ∨ ∃ t, event_time = Some t ∧ t + seconds 1 < now
            ∧ (key_step now event_time (Some true)).1 = Some false).
Proof.
  unfold key_step. destruct event_time as [t|]; [|by split; [|left]].
  destruct (_ && _); simpl; [by split; [|left]|].
  destruct (Z.ltb_spec (t + seconds 1) now); simpl; [|by split; [|left]].
  split; [done|]. right. by exists t.
Qed.

Lemma step_key self tk key :
  let change :=
    key_step (tick_time tk) (key_event (tick_today tk) (tick_time tk) key)
      (beep_played self !! key) in
  latches (step self tk) !! key = change.1
  ∧ (key ∈ played (step self tk) ↔ change.2 = true).
Proof.
  destruct (tick_key (set_today (tick_today tk) self) (tick_time tk) key)
    as (Hlatch & Hplayed & _).
  split; [exact Hlatch | exact Hplayed].
Qed.

(** From a set latch, a key is played again only after a tick that
    cleared the latch. *)
Lemma run_latched ticks self key (j : nat) sgj :
  beep_played self !! key = Some true →
  run self ticks !! j = Some sgj →
  key ∈ played sgj →
  ∃ (k : nat) tk sg t,
    (k < j)%nat ∧ ticks !! k = Some tk ∧ run self ticks !! k = Some sg
    ∧ key_event (tick_today tk) (tick_time tk) key = Some t
    ∧ t + seconds 1 < tick_time tk
    ∧ latches sg !! key = Some false.
Proof.
  revert self j. induction ticks as [|tk ticks IH]; intros self j Hset; [done|].
  pose proof (step_key self tk key) as [Hlatch Hplayed].
  rewrite Hset in Hlatch, Hplayed.
  pose proof (key_step_latched (tick_time tk)
                (key_event (tick_today tk) (tick_time tk) key))
    as [Hquiet [Hkeep | (t & Hev & Hlate & Hclear)]].
  - destruct j as [|j]; simpl.
    + intros [= <-] Hfire. apply Hplayed in Hfire. congruence.
    + intros Hj Hfire.
      destruct (IH (after self tk) j) as (k & tk' & sg & t & ?);
        [simpl; congruence | done | done |].
      exists (S k), tk', sg, t. simpl. intuition lia.
  - destruct j as [|j]; simpl.
    + intros [= <-] Hfire. apply Hplayed in Hfire. congruence.
    + intros _ _. exists 0%nat, tk, (step self tk), t. simpl.
      split_and!; [lia | done | done | done | done | congruence].
Qed.

End Runs.

(** C1. The signal trigger plays a key only in a tick whose instant lies in
    [[t, t + 1s)], [t] being the event instant of the key in that tick, and
    only with the latch of the key unset, which the tick then sets; no tick
    plays a key twice; and in every run of ticks, whatever events of the day
    each tick is given, between two ticks that play the same key there
    is a tick that saw its instant past [t + 1s] for the event instant [t] it
    had for the key and cleared the latch. *)
Theorem fires_once_per_occurrence (key : string) :
  (∀ self now,
     key ∈ played (_check_and_play_adhan self now) →
     ∃ t, key_event (today_prayers self) now key = Some t
          ∧ t ≤ now < t + seconds 1
          ∧ latch (beep_played self) key = false
          ∧ latches (_check_and_play_adhan self now) !! key = Some true)
  ∧ (∀ self now, NoDup (played (_check_and_play_adhan self now)))
  ∧ (∀ self ticks (i j : nat) sgi sgj,
       (i < j)%nat →
       run self ticks !! i = Some sgi →
       run self ticks !! j = Some sgj →
       key ∈ played sgi →
       key ∈ played sgj →
       ∃ (k : nat) tk sg t,
         (i < k < j)%nat
         ∧ ticks !! k = Some tk
         ∧ run self ticks !! k = Some sg
         ∧ key_event (tick_today tk) (tick_time tk) key = Some t
         ∧ t + seconds 1 < tick_time tk
         ∧ latches sg !! key = Some false).
Proof.
  split_and!.
  - intros self now Hfire.
    destruct (tick_key self now key) as (Hlatch & Hplayed & _).
    apply Hplayed, key_step_fires in Hfire as (t & Hev & Hwin & Hunset & Hset).
    exists t. split_and!; [done | lia | lia | done | congruence].
  - intros self now. apply (tick_key self now key).
  - intros self ticks. revert self.
    induction ticks as [|tk ticks IH]; intros self i j sgi sgj Hij; [done|].
    destruct j as [|j]; [lia|]. destruct i as [|i]; simpl.
    + intros [= <-] Hj Hfire_i Hfire_j.
      pose proof (step_key self tk key) as [Hlatch Hplayed].
      apply Hplayed, key_step_fires in Hfire_i as (_ & _ & _ & _ & Hset).
      destruct (run_latched ticks (after self tk) key j sgj)
        as (k & tk' & sg & t & ?); [simpl; congruence | done | done |].
      exists (S k), tk', sg, t. simpl. intuition lia.
    + intros Hi Hj Hfire_i Hfire_j.
      destruct (IH (after self tk) i j sgi sgj) as (k & tk' & sg & t & ?);
        [lia | done..|].
      exists (S k), tk', sg, t. simpl. intuition lia.
Qed.

(** Scenario D: at the instant of Fajr with the latch unset the tick plays
    Fajr; the tick half a second later plays nothing; the tick two seconds
    after the event clears the latch. *)
Example scenario_D :
  let today := today_prayers SCENARIO_A in
  let sgs :=
    run SCENARIO_A
      [Tick (instant 739252 5 30 0) today;
       Tick (instant 739252 5 30 0 + 500000) today;
       Tick (instant 739252 5 30 2) today] in
  played <$> sgs = [["Fajr"]; []; []]
  ∧ (λ sg, latches sg !! "Fajr") <$> sgs = [Some true; Some true; Some false].
Proof. vm_compute. done. Qed.

(** C8, as stated, fails: at the instant [t + 1s] exactly, the tick leaves
    the set latch of the tracked key Fajr set. *)
Lemma rearm_at_boundary_counterexample :
  let now := instant 739252 5 30 1 in
  let t := instant 739252 5 30 0 in
  key_event (today_prayers SCENARIO_A_LATCHED) now "Fajr" = Some t
  ∧ t + seconds 1 ≤ now
  ∧ latch (latches (_check_and_play_adhan SCENARIO_A_LATCHED now)) "Fajr" = true.
Proof. vm_compute. split_and!; (reflexivity || discriminate). Qed.

(** C8, amended. For a prayer the tick does not skip, with a parseable
    event instant [t] for its call or, when the Iqamah time is given and is
    another text, for its Iqamah, every tick at an instant after [t + 1s]
    leaves the latch of that key present and cleared; the tick at the
    instant [t + 1s] exactly leaves the latch as it was. *)
Theorem rearm_after_window (self : MasjidDisplay)
    (today : gmap string string) (now : datetime) (prayer : string) :
  today_prayers self = Some today →
  today ≠ ∅ →
  prayer ∈ tracked_today now →
  let sg := _check_and_play_adhan self now in
  let adhan_time_str := get today prayer in
  let iqamah_time_str := get today (prayer +:+ "_Iqamah") in
  (∀ t, event_of now adhan_time_str = Some t →
        (t + seconds 1 < now → latches sg !! prayer = Some false)
        ∧ (now = t + seconds 1 →
           latches sg !! prayer = beep_played self !! prayer))
  ∧ (∀ t, nonempty iqamah_time_str = true →
          iqamah_time_str ≠ adhan_time_str →
          event_of now iqamah_time_str = Some t →
          (t + seconds 1 < now →
           latches sg !! (prayer +:+ "_Iqamah") = Some false)
          ∧ (now = t + seconds 1 →
             latches sg !! (prayer +:+ "_Iqamah")
             = beep_played self !! (prayer +:+ "_Iqamah"))).
Proof.
  intros Htoday Hne Hin sg adhan_time_str iqamah_time_str.
  assert (∀ key t, key_event (Some today) now key = Some t →
            (t + seconds 1 < now → latches sg !! key = Some false)
            ∧ (now = t + seconds 1 →
               latches sg !! key = beep_played self !! key)) as Hkey.
  { intros key t Hev.
    destruct (tick_key self now key) as (Hlatch & _ & _).
    fold sg in Hlatch. rewrite Htoday, Hev in Hlatch. rewrite Hlatch.
    unfold key_step, seconds, SECOND.
    destruct (Z.leb_spec t now), (Z.ltb_spec now (t + 1 * 1000000)),
      (Z.ltb_spec (t + 1 * 1000000) now); simpl; split; intros; (done || lia). }
  split.
  - intros t Hev. apply Hkey. by rewrite key_event_adhan.
  - intros t Hiq Hdiff Hev. apply Hkey. by rewrite key_event_iqamah.
Qed.

Lemma rearm_after_window_witness :
  latches (_check_and_play_adhan SCENARIO_A_LATCHED (instant 739252 5 30 2))
    !! "Fajr" = Some false.
Proof.
  pose proof (rearm_after_window SCENARIO_A_LATCHED
                (format_prayer_time <$> delete "Date" ROW_SCENARIO_A)
                (instant 739252 5 30 2) "Fajr") as H.
  destruct H as [H _].
  - vm_compute. reflexivity.
  - intros Hempty.
    apply (f_equal (λ m : gmap string string, m !! "Fajr")) in Hempty.
    vm_compute in Hempty. discriminate Hempty.
  - vm_compute. left.
  - apply (H (instant 739252 5 30 0)).
    + vm_compute. reflexivity.
    + vm_compute. reflexivity.
Defined.

Section Keys.

Lemma length_append (s1 s2 : string) :
  String.length (s1 +:+ s2) = (String.length s1 + String.length s2)%nat.
Proof. induction s1 as [|c s1 IH]; simpl; [done | by rewrite IH]. Qed.

(** No Iqamah key is the name of a prayer. *)
Lemma iqamah_key_not_tracked prayer k :
  k ∈ TRACKED → k ≠ prayer +:+ "_Iqamah".
Proof.
  intros Hk Heq.
  assert (String.length k = (String.length prayer + 7)%nat) as Hlen.
  { by rewrite Heq, length_append. }
  unfold TRACKED in Hk.
  repeat (apply elem_of_cons in Hk as [->|Hk]; [simpl in Hlen; try lia|]).
  - destruct prayer; [discriminate Heq | simpl in Hlen; lia].
  - by apply elem_of_nil in Hk.
Qed.

End Keys.

(** C10. A key that has no entry in [beep_played] has its latch read as
    unset; such are all the Iqamah keys at the start, the map holding the six
    names of the calls only.  The tick whose instant falls in the firing
    window of such a key plays it and inserts it with the latch set, and
    every later tick past the window of the key leaves it present with the
    latch cleared. *)
Theorem absent_latch_is_unset (self : MasjidDisplay) (now : datetime)
    (key : string) (t : datetime) :
  beep_played self !! key = None →
  key_event (today_prayers self) now key = Some t →
  t ≤ now < t + seconds 1 →
  let sg := _check_and_play_adhan self now in
  latch (beep_played self) key = false
  ∧ key ∈ played sg
  ∧ latches sg !! key = Some true
  ∧ (∀ later now' t',
       key_event (today_prayers later) now' key = Some t' →
       t' + seconds 1 < now' →
       latches (_check_and_play_adhan later now') !! key = Some false)
  ∧ (∀ prayer, beep_played_init !! (prayer +:+ "_Iqamah") = None)
  ∧ dom beep_played_init = (list_to_set TRACKED : gset string).
Proof.
  intros Habsent Hev Hwin sg.
  destruct (tick_key self now key) as (Hlatch & Hplayed & _).
  fold sg in Hlatch, Hplayed. rewrite Hev, Habsent in Hlatch, Hplayed.
  assert (key_step now (Some t) None = (Some true, true)) as Hstep.
  { unfold key_step. destruct (Z.leb_spec t now), (Z.ltb_spec now (t + seconds 1));
      simpl; (done || lia). }
  rewrite Hstep in Hlatch, Hplayed. split_and!.
  - unfold latch. by rewrite Habsent.
  - by apply Hplayed.
  - exact Hlatch.
  - intros later now' t' Hev' Hlate.
    destruct (tick_key later now' key) as (Hlatch' & _ & _).
    rewrite Hev' in Hlatch'. rewrite Hlatch'. unfold key_step.
    destruct (Z.leb_spec t' now'), (Z.ltb_spec now' (t' + seconds 1)),
      (Z.ltb_spec (t' + seconds 1) now'); simpl; (done || lia).
  - intros prayer. unfold beep_played_init.
    rewrite !lookup_insert_ne, lookup_empty;
      [done | apply iqamah_key_not_tracked, list_elem_of_In; simpl; tauto..].
  - apply (bool_decide_unpack _). vm_compute. exact I.
Qed.

(** The day of the source row has an Iqamah for Maghrib, at 05:50 PM. *)
Lemma absent_latch_is_unset_witness :
  "Maghrib_Iqamah"
  ∈ played (_check_and_play_adhan (loaded [ROW_2025_01_01] 739252)
              (instant 739252 17 50 0)).
Proof.
  pose proof (absent_latch_is_unset (loaded [ROW_2025_01_01] 739252)
                (instant 739252 17 50 0) "Maghrib_Iqamah"
                (instant 739252 17 50 0)) as H.
  destruct H as (_ & H & _).
  - vm_compute. reflexivity.
  - vm_compute. reflexivity.
  - vm_compute. split; [discriminate | reflexivity].
  - exact H.
Defined.

(** ** The Friday substitution *)

Section Friday.

Implicit Types (self : MasjidDisplay) (now : datetime).

Lemma format_result_kind acc :
  kind_of (format_result acc) = None
  ∨ kind_of (format_result acc) = next_event acc.
Proof.
  unfold format_result. destruct (min_time_diff acc) as [diff|]; [|by left].
  destruct (diff =? 0); [by left | by right].
Qed.

(** The event the scheduler returns is the Fajr of the lookahead or the
    prayer of a candidate of the day. *)
Lemma result_kind self now prayer :
  kind_of (_get_time_until_next_event self now) = Some prayer →
  prayer = "Fajr"
  ∨ ∃ today iq t,
      today_prayers self = Some today ∧ (prayer, iq, t) ∈ candidates today now.
Proof.
  unfold _get_time_until_next_event.
  destruct (today_prayers self) as [today|]; [|done].
  case_bool_decide; [done|].
  destruct (format_result_kind
              (next_day_fajr self now (events_today today now)))
    as [-> | ->]; [done|].
  pose proof (foldl_nearer_is_nearest now (candidates today now)) as Hnear.
  rewrite <- events_today_candidates in Hnear.
  unfold next_day_fajr, is_nearest in *.
  destruct (next_event (events_today today now)) as [prayer0|] eqn:Hev.
  - rewrite Hev. intros [= ->].
    destruct Hnear as (i & t & Hi%list_elem_of_lookup_2 & _).
    right. eauto.
  - destruct (prayer_times self !! _) as [next_day_prayers|];
      [|by rewrite Hev].
    case_bool_decide; [by rewrite Hev|].
    destruct (nonempty _); [|by rewrite Hev].
    destruct (strptime_I_M_p _); [|by rewrite Hev].
    simpl. intros [= <-]. by left.
Qed.

Lemma prayer_order_cases (is_friday : bool) :
  prayer_order is_friday
  = if is_friday then ["Fajr"; "Jummah"; "Asr"; "Maghrib"; "Isha"]
    else ["Fajr"; "Dhuhr"; "Asr"; "Maghrib"; "Isha"].
Proof. by destruct is_friday. Qed.

Lemma candidates_not_excluded today now prayer iq t :
  (prayer, iq, t) ∈ candidates today now →
  prayer ≠ (if weekday now =? 4 then "Dhuhr" else "Jummah").
Proof.
  intros [_ Hin]%candidates_today. rewrite prayer_order_cases in Hin.
  destruct (weekday now =? 4);
    repeat (apply elem_of_cons in Hin as [->|Hin]; [discriminate|]);
    by apply elem_of_nil in Hin.
Qed.

End Friday.

Section Midday.

Implicit Types (self : MasjidDisplay) (now : datetime).
Implicit Types (today other : gmap string string).

Lemma event_of_nonempty now time_str t :
  event_of now time_str = Some t → nonempty time_str = true.
Proof.
  unfold event_of, nonempty. destruct (String.eqb_spec time_str ""); [|done].
  subst. discriminate.
Qed.

(** The call time of a prayer of the ordered list is a candidate. *)
Lemma adhan_candidate today now prayer t :
  prayer ∈ prayer_order (weekday now =? 4) →
  event_of now (get today prayer) = Some t →
  (prayer, false, t) ∈ candidates today now.
Proof.
  intros Hin Hev. unfold candidates. apply list_elem_of_bind.
  exists prayer. split; [|done]. unfold prayer_candidates.
  assert (negb (weekday now =? 4) && String.eqb prayer "Jummah" = false) as ->.
  { rewrite prayer_order_cases in Hin.
    destruct (weekday now =? 4); [done|]. simpl.
    repeat (apply elem_of_cons in Hin as [->|Hin]; [done|]).
    by apply elem_of_nil in Hin. }
  apply list_elem_of_bind. exists (get today prayer, false). split.
  - unfold entry_candidates; simpl. unfold event_of in Hev.
    destruct (strptime_I_M_p (get today prayer)); [|done].
    injection Hev as <-. by apply list_elem_of_singleton.
  - unfold times_to_check. rewrite (event_of_nonempty _ _ _ Hev).
    apply elem_of_app. left. by apply list_elem_of_singleton.
Qed.

(** With a candidate after [now], the scheduler returns an event that is
    no later. *)
Lemma scheduled_by self today now prayer iq t :
  today_prayers self = Some today → today ≠ ∅ →
  (prayer, iq, t) ∈ candidates today now → now < t →
  ∃ prayer' hours minutes secs iq',
    _get_time_until_next_event self now
    = (Some prayer', hours, minutes, secs, iq')
    ∧ hours * 3600 + minutes * 60 + secs ≤ (t - now) `div` SECOND + 1.
Proof.
  intros Htoday Hne [j Hj]%list_elem_of_lookup Hnow.
  destruct (nearest_or_none self today now Htoday Hne)
    as [Hnone | (p & iq' & t' & Hres & Hfuture & Hmin)].
  - apply list_elem_of_lookup_2, Hnone in Hj. lia.
  - pose proof (Hmin _ _ _ _ Hj Hnow) as Hle.
    destruct (format_result_positive p (t' - now) iq')
      as (h & m & s & Hfmt & _ & _ & _ & Hsum); [lia|].
    exists p, h, m, s, iq'. split; [by rewrite Hres|].
    rewrite Hsum. pose proof (Z.div_le_mono (t' - now) (t - now) SECOND).
    unfold SECOND in *. lia.
Qed.

(** Either no candidate lies after [now], or the scheduler returns the
    countdown to a candidate after [now] that none of them precedes. *)
Lemma nearest_candidate self today now :
  today_prayers self = Some today → today ≠ ∅ →
  (∀ prayer iq t, (prayer, iq, t) ∈ candidates today now → t ≤ now)
  ∨ ∃ prayer iq t,
      (prayer, iq, t) ∈ candidates today now
      ∧ now < t
      ∧ (∀ prayer' iq' t',
           (prayer', iq', t') ∈ candidates today now → now < t' → t ≤ t')
      ∧ _get_time_until_next_event self now
        = format_result (Scan (Some prayer) (Some (t - now)) iq).
Proof.
  intros Htoday Hne.
  rewrite (get_time_until_next_event_today _ _ _ Htoday Hne).
  pose proof (foldl_nearer_is_nearest now (candidates today now)) as Hnear.
  rewrite <- events_today_candidates in Hnear.
  unfold is_nearest, next_day_fajr in *.
  destruct (events_today today now) as [ev least iq]; simpl in *.
  destruct ev as [prayer|]; [right | left; by destruct Hnear].
  destruct Hnear as (i & t & Hi & Hnow & -> & Hmin).
  exists prayer, iq, t. split_and!; [by eapply list_elem_of_lookup_2 | done | | done].
  intros p' iq' t' [j Hj]%list_elem_of_lookup Ht'.
  by destruct (Hmin _ _ _ _ Hj Ht').
Qed.

End Midday.

Section Regular.

Implicit Types (now : datetime) (today other : gmap string string).

(** On a Friday neither the scheduler nor the trigger reads the entries
    of the regular name. *)
Lemma friday_ignores_dhuhr today other now :
  weekday now = 4 →
  (∀ key, key ≠ "Dhuhr" → key ≠ "Dhuhr_Iqamah" → other !! key = today !! key) →
  candidates other now = candidates today now
  ∧ checks other now = checks today now.
Proof.
  intros Hfriday Hsame.
  assert (∀ key, key ≠ "Dhuhr" → key ≠ "Dhuhr_Iqamah" →
            get other key = get today key) as Hget.
  { intros key H1 H2. unfold get. by rewrite Hsame. }
  unfold candidates, checks, prayer_order, TRACKED, prayer_candidates,
    prayer_checks, times_to_check.
  rewrite Hfriday. simpl.
  by rewrite !Hget by discriminate.
Qed.

End Regular.

(** C5. On a Friday the variant Jummah stands in place of Dhuhr in the
    ordered list of the scheduler and among the prayers the trigger goes
    through: its time of the day is a candidate of the scheduler, which
    counts down to it, or to an earlier event, while it lies ahead, and
    returns it when it is the nearest; and the trigger plays it in the
    second of its instant when its latch is unset.  Dhuhr is neither a
    candidate, nor selected, nor played, with or without its Iqamah.  On
    every other weekday the same holds with the two names exchanged. *)
Theorem friday_substitution (self : MasjidDisplay) (now : datetime) :
  let is_friday := weekday now =? 4 in
  let variant := if is_friday then "Jummah" else "Dhuhr" in
  let excluded := if is_friday then "Dhuhr" else "Jummah" in
  let sg := _check_and_play_adhan self now in
  prayer_order is_friday = ["Fajr"; variant; "Asr"; "Maghrib"; "Isha"]
  ∧ tracked_today now
    = (if is_friday then ["Fajr"; "Asr"; "Maghrib"; "Isha"; variant]
       else ["Fajr"; variant; "Asr"; "Maghrib"; "Isha"])
  ∧ (∀ (today : gmap string string), today ≠ ∅ →
       key_event (Some today) now variant = event_of now (get today variant))
  ∧ (∀ today prayer iq t,
       (prayer, iq, t) ∈ candidates today now → prayer ≠ excluded)
  ∧ kind_of (_get_time_until_next_event self now) ≠ Some excluded
  ∧ (excluded ∉ played sg)
  ∧ ((excluded +:+ "_Iqamah") ∉ played sg)
  ∧ (latches sg !! excluded) = (beep_played self !! excluded)
  ∧ (latches sg !! (excluded +:+ "_Iqamah"))
    = (beep_played self !! (excluded +:+ "_Iqamah"))
  ∧ (∀ today t,
       today_prayers self = Some today → today ≠ ∅ →
       event_of now (get today variant) = Some t →
       (variant, false, t) ∈ candidates today now
       ∧ (t ≤ now < t + seconds 1 →
          (variant ∈ played sg ↔ latch (beep_played self) variant = false)
          ∧ latch (latches sg) variant = true)
       ∧ (now < t →
          ∃ prayer hours minutes secs iq,
            _get_time_until_next_event self now
            = (Some prayer, hours, minutes, secs, iq)
            ∧ hours * 3600 + minutes * 60 + secs
              ≤ (t - now) `div` SECOND + 1)
       ∧ (now < t →
          (∀ prayer iq t',
             (prayer, iq, t') ∈ candidates today now → now < t' →
             (prayer, iq, t') ≠ (variant, false, t) → t < t') →
          _get_time_until_next_event self now
          = format_result (Scan (Some variant) (Some (t - now)) false)
          ∧ kind_of (_get_time_until_next_event self now) = Some variant)).
Proof.
  intros is_friday variant excluded sg.
  destruct (key_event_excluded (today_prayers self) now) as [Hcall Hiqamah].
  fold is_friday excluded in Hcall, Hiqamah.
  destruct (tick_key self now excluded) as (Hlatch & Hplayed & _).
  destruct (tick_key self now (excluded +:+ "_Iqamah")) as (Hlatch' & Hplayed' & _).
  fold sg in Hlatch, Hplayed, Hlatch', Hplayed'.
  rewrite Hcall in Hlatch, Hplayed. rewrite Hiqamah in Hlatch', Hplayed'.
  simpl in Hlatch, Hplayed, Hlatch', Hplayed'.
  assert (variant ∈ tracked_today now) as Htracked.
  { rewrite tracked_today_cases. fold is_friday. unfold variant.
    destruct is_friday; apply list_elem_of_In; simpl; tauto. }
  split_and!.
  - unfold variant. by destruct is_friday.
  - rewrite tracked_today_cases. fold is_friday. unfold variant.
    by destruct is_friday.
  - intros today Hne. by apply key_event_adhan.
  - intros today prayer iq t. apply candidates_not_excluded.
  - intros [Hfajr | (today & iq & t & _ & Hin)]%result_kind.
    + unfold excluded in Hfajr. by destruct is_friday.
    + by apply candidates_not_excluded in Hin.
  - intros Hin%Hplayed. discriminate.
  - intros Hin%Hplayed'. discriminate.
  - exact Hlatch.
  - exact Hlatch'.
  - intros today t Htoday Hne Hev.
    assert ((variant, false, t) ∈ candidates today now) as Hcand.
    { apply adhan_candidate; [|done]. fold is_friday.
      rewrite prayer_order_cases. unfold variant.
      destruct is_friday; apply list_elem_of_In; simpl; tauto. }
    split_and!.
    + exact Hcand.
    + intros Hwin.
      destruct (tick_key self now variant) as (Hl & Hp & _).
      fold sg in Hl, Hp.
      rewrite Htoday, (key_event_adhan _ _ _ Hne Htracked), Hev in Hl, Hp.
      unfold latch. rewrite Hl, Hp. unfold key_step.
      destruct (Z.leb_spec t now), (Z.ltb_spec now (t + seconds 1)); try lia.
      simpl. split.
      * destruct (default false (beep_played self !! variant)); simpl;
          split; done.
      * by destruct (default false (beep_played self !! variant)) eqn:Hentry.
    + intros Hnow. by eapply scheduled_by.
    + intros Hnow Hothers.
      destruct (nearest_candidate self today now Htoday Hne)
        as [Hnone | (p & iq & t0 & Hin & Hfuture & Hmin & Hres)].
      { apply Hnone in Hcand. lia. }
      pose proof (Hmin _ _ _ Hcand Hnow) as Hle.
      destruct (decide ((p, iq, t0) = (variant, false, t))) as [Heq|Hne'].
      * injection Heq as -> -> ->. split; [done|]. rewrite Hres.
        destruct (format_result_positive variant (t - now) false)
          as (h & m & s & -> & _); [lia | done].
      * pose proof (Hothers _ _ _ Hin Hfuture Hne'). lia.
Qed.

Example scenario_B :
  weekday (instant 739254 12 0 0) = 4
  ∧ _get_time_until_next_event SCENARIO_B (instant 739254 12 0 0)
    = (Some "Jummah", 1, 30, 1, false)
  ∧ played (_check_and_play_adhan SCENARIO_B (instant 739254 13 0 0)) = []
  ∧ played (_check_and_play_adhan SCENARIO_B (instant 739254 13 30 0))
    = ["Jummah"].
Proof. vm_compute. done. Qed.

(** C6, as stated, fails: on a Friday whose day provides the midday time
    under the name Dhuhr, the scheduler has no candidate for it (at noon it
    finds no event at all), and the tick at its instant plays nothing. *)
Lemma midday_under_regular_name_counterexample :
  weekday (instant 739254 12 0 0) = 4
  ∧ (today_prayers FRIDAY_DHUHR ≫= λ today, today !! "Dhuhr") = Some "01:00 PM"
  ∧ ((λ today, candidates today (instant 739254 12 0 0))
       <$> today_prayers FRIDAY_DHUHR)
    = Some [("Fajr", false, instant 739254 5 30 0)]
  ∧ _get_time_until_next_event FRIDAY_DHUHR (instant 739254 12 0 0) = no_event
  ∧ played (_check_and_play_adhan FRIDAY_DHUHR (instant 739254 13 0 0)) = [].
Proof. vm_compute. done. Qed.

(** C6, amended. On a Friday the midday event is scheduled and triggered
    from the time the day provides under the congregational name: when the
    Jummah time of the day is parseable, its instant is a candidate of the
    scheduler, which before it returns an event that is no later, and it is
    the event instant of the key Jummah, which the tick in its window plays
    when the latch is unset; the entries of the day under the regular name
    are not read that day. *)
Theorem friday_midday_from_jummah (self : MasjidDisplay)
    (today : gmap string string) (now t : datetime) :
  today_prayers self = Some today →
  today ≠ ∅ →
  weekday now = 4 →
  event_of now (get today "Jummah") = Some t →
  ("Jummah", false, t) ∈ candidates today now
  ∧ key_event (Some today) now "Jummah" = Some t
  ∧ (now < t →
     ∃ prayer hours minutes secs iq,
       _get_time_until_next_event self now
       = (Some prayer, hours, minutes, secs, iq)
       ∧ hours * 3600 + minutes * 60 + secs ≤ (t - now) `div` SECOND + 1)
  ∧ (t ≤ now < t + seconds 1 →
     latch (beep_played self) "Jummah" = false →
     "Jummah" ∈ played (_check_and_play_adhan self now))
  ∧ (∀ other,
       (∀ key, key ≠ "Dhuhr" → key ≠ "Dhuhr_Iqamah" →
               other !! key = today !! key) →
       candidates other now = candidates today now
       ∧ checks other now = checks today now).
Proof.
  intros Htoday Hne Hfriday Hev.
  assert (("Jummah", false, t) ∈ candidates today now) as Hcand.
  { apply adhan_candidate; [|done]. rewrite Hfriday. simpl.
    apply list_elem_of_In. simpl. tauto. }
  assert (key_event (Some today) now "Jummah" = Some t) as Hkey.
  { rewrite key_event_adhan; [done..|].
    rewrite tracked_today_cases, Hfriday. simpl.
    apply list_elem_of_In. simpl. tauto. }
  split_and!.
  - exact Hcand.
  - exact Hkey.
  - intros Hnow. by eapply scheduled_by.
  - intros Hwin Hunset.
    destruct (tick_key self now "Jummah") as (_ & Hplayed & _).
    apply Hplayed. rewrite Htoday, Hkey. unfold key_step, latch in *.
    destruct (Z.leb_spec t now), (Z.ltb_spec now (t + seconds 1)); try lia.
    simpl. by rewrite Hunset.
  - intros other Hsame. by apply friday_ignores_dhuhr.
Qed.

Lemma friday_midday_from_jummah_witness :
  "Jummah" ∈ played (_check_and_play_adhan SCENARIO_B (instant 739254 13 30 0)).
Proof.
  pose proof (friday_midday_from_jummah SCENARIO_B
                (format_prayer_time <$> delete "Date" ROW_SCENARIO_B)
                (instant 739254 13 30 0) (instant 739254 13 30 0)) as H.
  destruct H as (_ & _ & _ & H & _).
  - vm_compute. reflexivity.
  - intros Hempty.
    apply (f_equal (λ m : gmap string string, m !! "Fajr")) in Hempty.
    vm_compute in Hempty. discriminate Hempty.
  - vm_compute. reflexivity.
  - vm_compute. reflexivity.
  - apply H.
    + vm_compute. split; [discriminate | reflexivity].
    + vm_compute. reflexivity.
Defined.

(** * Further properties of the code *)

(** ** Calendar store *)

Section StoreInvariants.

Implicit Types (rows : list csv_row) (row : csv_row).
Implicit Types (store acc : gmap (option string) (gmap string string)).

Lemma formatted_row_ok (line : gmap string (option string)) :
  entries_ok (format_prayer_time_cell <$> delete "Date" line).
Proof.
  split.
  - by rewrite lookup_fmap, lookup_delete_eq.
  - intros key v. rewrite lookup_fmap.
    destruct (delete "Date" line !! key) as [[v0|]|]; simpl; [| |done].
    + intros [= <-].
      destruct (format_prayer_time_cases v0) as [-> | (c & Hc & _ & ->)];
        [by left | right].
      exists c. split_and!; [done | done | by apply format_prayer_time_clock].
    + intros [= <-]. by left.
Qed.

Lemma load_rows_entries_ok rows acc store :
  load_rows rows acc = Ok store →
  (∀ d entries, acc !! d = Some entries → entries_ok entries) →
  ∀ d entries, store !! d = Some entries → entries_ok entries.
Proof.
  revert acc. induction rows as [|row rows IH]; intros acc; simpl.
  - by intros [= ->].
  - unfold load_row. destruct (rest row); [|done].
    destruct (cells row !! "Date") as [d0|]; [|done].
    intros Hload Hacc. apply (IH _ Hload).
    intros d entries. destruct (decide (d0 = d)) as [->|Hne].
    + rewrite lookup_insert_eq. intros [= <-]. apply formatted_row_ok.
    + rewrite lookup_insert_ne by done. apply Hacc.
Qed.

Lemma load_rows_raises rows acc :
  match load_rows rows acc with
  | Ok _ => ∀ r, r ∈ rows → rest r = [] ∧ is_Some (cells r !! "Date")
  | KeyError k =>
      k = "Date"
      ∧ ∃ (i : nat) r,
          rows !! i = Some r ∧ rest r = [] ∧ cells r !! "Date" = None
          ∧ ∀ (j : nat) r', (j < i)%nat → rows !! j = Some r' →
              rest r' = [] ∧ is_Some (cells r' !! "Date")
  | TypeError =>
      ∃ (i : nat) r,
        rows !! i = Some r ∧ rest r ≠ []
        ∧ ∀ (j : nat) r', (j < i)%nat → rows !! j = Some r' →
            rest r' = [] ∧ is_Some (cells r' !! "Date")
  end.
Proof.
  revert acc. induction rows as [|row rows IH]; intros acc; simpl.
  - by intros r ?%elem_of_nil.
  - unfold load_row. destruct (rest row) as [|x xs] eqn:Hrest.
    + destruct (cells row !! "Date") as [d0|] eqn:Hd.
      * specialize (IH (<[d0 := format_prayer_time_cell
                                  <$> delete "Date" (cells row)]> acc)).
        destruct (load_rows rows _) as [store|k|].
        -- intros r [->|Hr]%elem_of_cons; [by rewrite Hd | by apply IH].
        -- destruct IH as (-> & i & r & Hi & Hr & Hnone & Hbefore).
           split; [done|]. exists (S i), r. split_and!; [done..|].
           intros [|j] r' Hj; simpl.
           ++ intros [= <-]. by rewrite Hd.
           ++ apply Hbefore. lia.
        -- destruct IH as (i & r & Hi & Hr & Hbefore).
           exists (S i), r. split_and!; [done..|].
           intros [|j] r' Hj; simpl.
           ++ intros [= <-]. by rewrite Hd.
           ++ apply Hbefore. lia.
      * split; [done|]. exists 0%nat, row. split_and!; [done..|].
        intros j r' Hj. lia.
    + exists 0%nat, row. split_and!; [done | by rewrite Hrest |].
      intros j r' Hj. lia.
Qed.

Lemma load_rows_dates rows acc store d :
  load_rows rows acc = Ok store →
  is_Some (store !! d)
  ↔ is_Some (acc !! d) ∨ ∃ r, r ∈ rows ∧ cells r !! "Date" = Some d.
Proof.
  revert acc. induction rows as [|row rows IH]; intros acc; simpl.
  - intros [= ->].
    split; [by left|]. intros [H | (r & Hr%elem_of_nil & _)]; done.
  - unfold load_row. destruct (rest row); [|done].
    destruct (cells row !! "Date") as [d0|] eqn:Hd0; [|done].
    intros Hdom%IH.
    rewrite Hdom. rewrite lookup_insert_is_Some. split.
    + intros [[-> | [_ Hacc]] | (r & Hr & Hd)].
      * right. exists row. split; [left | done].
      * by left.
      * right. exists r. split; [by right | done].
    + intros [Hacc | (r & [->|Hr]%elem_of_cons & Hd)].
      * left. destruct (decide (d0 = d)); [by left | by right].
      * left. left. congruence.
      * right. by exists r.
Qed.

Lemma twice_and_length_clocks :
  forallb
    (λ c, String.eqb (format_prayer_time (strftime_I_M_p c)) ""
          && Nat.eqb (String.length (strftime_I_M_p c)) 8)
    clocks = true.
Proof. vm_compute. reflexivity. Qed.

Lemma strftime_I_M_p_shape c :
  clock_ok c →
  format_prayer_time (strftime_I_M_p c) = ""
  ∧ String.length (strftime_I_M_p c) = 8%nat.
Proof.
  intros Hc%elem_of_clocks. pose proof twice_and_length_clocks as Hall.
  rewrite forallb_forall in Hall. apply list_elem_of_In, Hall in Hc.
  apply andb_prop in Hc as [Hf Hl].
  apply String.eqb_eq in Hf. apply Nat.eqb_eq in Hl. done.
Qed.

Lemma format_prayer_time_parsed s c :
  strptime_H_M s = Some c → format_prayer_time s = strftime_I_M_p c.
Proof.
  intros Hs. unfold format_prayer_time. rewrite Hs.
  destruct (nonempty s) eqn:Hne; [done|].
  apply nonempty_false in Hne. subst. discriminate.
Qed.

End StoreInvariants.

(** X1. In a store that [load_prayer_times] returns, the entries of every
    day hold no date, and every time they hold is the empty text or the
    12-hour text of a time of day that ['%I:%M %p'] reads back: on loaded
    data no reader meets a time it cannot parse. *)
Theorem loaded_times_parse (source : option (list csv_row))
    (store : gmap (option string) (gmap string string)) (d : option string)
    (entries : gmap string string) :
  load_prayer_times source = Ok store →
  store !! d = Some entries →
  entries !! "Date" = None
  ∧ ∀ key,
      get entries key = ""
      ∨ ∃ c, clock_ok c ∧ get entries key = strftime_I_M_p c
             ∧ strptime_I_M_p (get entries key) = Some c.
Proof.
  intros Hload Hd.
  assert (entries_ok entries) as [Hdate Hvalues].
  { destruct source as [rows|]; simpl in Hload.
    - eapply (load_rows_entries_ok _ _ _ Hload); [|done].
      intros d' e. by rewrite lookup_empty.
    - injection Hload as <-. by rewrite lookup_empty in Hd. }
  split; [done|]. intros key. unfold get.
  destruct (entries !! key) as [v|] eqn:Hv; [|by left].
  by apply (Hvalues key).
Qed.

Lemma loaded_times_parse_witness :
  get (format_prayer_time <$> delete "Date" ROW_2025_01_01) "Maghrib" = ""
  ∨ ∃ c, clock_ok c
         ∧ get (format_prayer_time <$> delete "Date" ROW_2025_01_01) "Maghrib"
           = strftime_I_M_p c
         ∧ strptime_I_M_p
             (get (format_prayer_time <$> delete "Date" ROW_2025_01_01)
                "Maghrib")
           = Some c.
Proof.
  destruct (loaded_times_parse (Some [full_line ROW_2025_01_01])
              (<[Some "2025-01-01"
                 := format_prayer_time <$> delete "Date" ROW_2025_01_01]> ∅)
              (Some "2025-01-01")
              (format_prayer_time <$> delete "Date" ROW_2025_01_01))
    as [_ H].
  - vm_compute. reflexivity.
  - apply lookup_insert_eq.
  - apply (H "Maghrib").
Defined.

(** X2. What [load_prayer_times] does on the rows that [csv.DictReader]
    yields is decided by the first row that is longer than the header or
    has no date column: if there is none the load returns, and the keys of
    the store are the date cells of the rows, [None] for a line too short
    to have one; if that row is longer than the header the load raises
    [TypeError]; otherwise it raises [KeyError] with the key "Date". *)
Theorem load_dates_or_error (rows : list csv_row) :
  match load_prayer_times (Some rows) with
  | Ok store =>
      (∀ r, r ∈ rows → rest r = [] ∧ is_Some (cells r !! "Date"))
      ∧ ∀ d, is_Some (store !! d)
             ↔ ∃ r, r ∈ rows ∧ cells r !! "Date" = Some d
  | KeyError k =>
      k = "Date"
      ∧ ∃ (i : nat) r,
          rows !! i = Some r ∧ rest r = [] ∧ cells r !! "Date" = None
          ∧ ∀ (j : nat) r', (j < i)%nat → rows !! j = Some r' →
              rest r' = [] ∧ is_Some (cells r' !! "Date")
  | TypeError =>
      ∃ (i : nat) r,
        rows !! i = Some r ∧ rest r ≠ []
        ∧ ∀ (j : nat) r', (j < i)%nat → rows !! j = Some r' →
            rest r' = [] ∧ is_Some (cells r' !! "Date")
  end.
Proof.
  simpl. pose proof (load_rows_raises rows ∅) as Hraises.
  destruct (load_rows rows ∅) as [store|k|] eqn:Hload; [|done..].
  split; [done|].
  intros d. rewrite (load_rows_dates rows ∅ store d Hload).
  rewrite lookup_empty. split; [intros [[? [=]] | H]; done | by right].
Qed.

(** The header [Fajr,Date] with the line [05:30]: the line has no date cell,
    and its entries are stored under the key [None]. *)
Example short_line_stored_under_None :
  load_prayer_times
    (Some [CsvRow (<["Fajr" := Some "05:30"]> (<["Date" := None]> ∅)) []])
  = Ok (<[None := <["Fajr" := "05:30 AM"]> ∅]> ∅).
Proof. vm_compute. reflexivity. Qed.

(** The header [Day,Fajr] with the line [2025-01-01,05:30,13:00]: the list
    of the cell past the header is formatted before the date is looked
    up. *)
Example overlong_line_before_missing_date :
  load_prayer_times
    (Some [CsvRow (<["Day" := Some "2025-01-01"]> (<["Fajr" := Some "05:30"]> ∅))
             ["13:00"]])
  = TypeError
  ∧ load_prayer_times
      (Some [CsvRow (<["Day" := Some "2025-01-01"]> (<["Fajr" := Some "05:30"]> ∅))
               []])
    = KeyError "Date".
Proof. vm_compute. done. Qed.

(** X3. Two 24-hour values that parse are stored as the same text exactly
    when they are the same time of day, however they are written ("5:30"
    and "05:30"): comparing stored texts compares times. *)
Theorem same_text_same_time (s1 s2 : string) (c1 c2 : clock) :
  strptime_H_M s1 = Some c1 →
  strptime_H_M s2 = Some c2 →
  (format_prayer_time s1 = format_prayer_time s2 ↔ c1 = c2).
Proof.
  intros H1 H2.
  rewrite (format_prayer_time_parsed _ _ H1), (format_prayer_time_parsed _ _ H2).
  split; [|by intros ->].
  intros Heq.
  destruct (format_prayer_time_clock c1) as [_ Hback1];
    [by eapply strptime_H_M_ok|].
  destruct (format_prayer_time_clock c2) as [_ Hback2];
    [by eapply strptime_H_M_ok|].
  congruence.
Qed.

Lemma same_text_same_time_witness :
  format_prayer_time "5:30" = format_prayer_time "05:30".
Proof.
  apply (same_text_same_time "5:30" "05:30" (Clock 5 30) (Clock 5 30));
    reflexivity.
Defined.

(** X4. What [format_prayer_time] returns is the empty text or a text of
    eight characters, and it is never a value [format_prayer_time] accepts:
    formatting a formatted time gives the empty text. *)
Theorem format_prayer_time_twice (s : string) :
  format_prayer_time (format_prayer_time s) = ""
  ∧ (format_prayer_time s = ""
     ∨ String.length (format_prayer_time s) = 8%nat).
Proof.
  destruct (format_prayer_time_cases s) as [-> | (c & Hc & _ & ->)].
  - split; [reflexivity | by left].
  - destruct (strftime_I_M_p_shape c Hc) as [Htwice Hlen].
    split; [done | by right].
Qed.

(** ** Lunar date resolver *)

Section ResolverOrder.

Implicit Types (self : MasjidDisplay) (now : datetime).

Lemma date_to_convert_formula self now :
  date_to_convert self now
  = date_of now
    + match maghrib_clock self with
      | Some b => if replace_date b now <=? now then 1 else 0
      | None => 0
      end
    + islamic_date_offset self.
Proof.
  unfold date_to_convert, maghrib_clock.
  destruct (today_prayers self) as [today|]; simpl; [|lia].
  case_bool_decide as Hempty.
  - subst today. unfold get. rewrite lookup_empty. simpl. lia.
  - destruct (nonempty (get today "Maghrib")) eqn:Hne.
    + destruct (strptime_I_M_p (get today "Maghrib")) as [b|]; [|lia].
      destruct (replace_date b now <=? now); lia.
    + apply nonempty_false in Hne. rewrite Hne. simpl. lia.
Qed.

Lemma date_of_mono now1 now2 : now1 ≤ now2 → date_of now1 ≤ date_of now2.
Proof. intros H. unfold date_of. apply Z.div_le_mono; [reflexivity | done]. Qed.

Lemma HIJRI_MONTH_NAMES_lookup (month : Z) :
  if (1 <=? month) && (month <=? 12)
  then is_Some (HIJRI_MONTH_NAMES !! month)
  else HIJRI_MONTH_NAMES !! month = None.
Proof.
  destruct (Z.leb_spec 1 month), (Z.leb_spec month 12); simpl.
  - assert (month ∈ seqZ 1 12) as Hin by (apply elem_of_seqZ; lia).
    apply list_elem_of_In in Hin. simpl in Hin.
    repeat (destruct Hin as [<-|Hin]; [by eexists|]). done.
  - unfold HIJRI_MONTH_NAMES. apply not_elem_of_list_to_map_1.
    simpl. rewrite !not_elem_of_cons. split_and!; try lia.
    apply not_elem_of_nil.
  - unfold HIJRI_MONTH_NAMES. apply not_elem_of_list_to_map_1.
    simpl. rewrite !not_elem_of_cons. split_and!; try lia.
    apply not_elem_of_nil.
  - lia.
Qed.

End ResolverOrder.

(** X5. With the events of the day unchanged, the civil date the resolver
    converts never goes back as the instant moves on, within a day and from
    one day to the next, and it is the date of the instant or the day after
    it, moved by the manual offset. *)
Theorem date_to_convert_monotone (self : MasjidDisplay)
    (now1 now2 : datetime) :
  now1 ≤ now2 →
  date_to_convert self now1 ≤ date_to_convert self now2
  ∧ date_of now1 + islamic_date_offset self
    ≤ date_to_convert self now1
    ≤ date_of now1 + 1 + islamic_date_offset self.
Proof.
  intros Hle. rewrite !date_to_convert_formula.
  pose proof (date_of_mono _ _ Hle) as Hdate.
  destruct (maghrib_clock self) as [b|]; [|lia].
  unfold replace_date.
  destruct (Z.leb_spec (date_of now1 * DAY + hour b * HOUR + minute b * MINUTE) now1),
    (Z.leb_spec (date_of now2 * DAY + hour b * HOUR + minute b * MINUTE) now2);
    try lia.
  assert (date_of now1 < date_of now2 ∨ date_of now1 = date_of now2) as [?|Heq]
    by lia; [lia|].
  rewrite Heq in *. lia.
Qed.

Lemma date_to_convert_monotone_witness :
  date_to_convert (loaded [ROW_2025_01_01] 739252) (instant 739252 17 44 59)
  ≤ date_to_convert (loaded [ROW_2025_01_01] 739252) (instant 739252 17 45 0).
Proof.
  apply (date_to_convert_monotone (loaded [ROW_2025_01_01] 739252)
           (instant 739252 17 44 59) (instant 739252 17 45 0)).
  vm_compute. discriminate.
Defined.

(** X6. [_get_islamic_date] returns the day, the name of the month and the
    year of the date the converter gives when the month of that date is one
    of 1 to 12, and raises [KeyError] on the table of the month names for
    any other month. *)
Theorem islamic_date_month_names (to_hijri : Z → Z → Z → hijri)
    (self : MasjidDisplay) (now : datetime) :
  let '(year, month, day) := ord2ymd (date_to_convert self now) in
  let hijri_date := to_hijri year month day in
  if (1 <=? hijri_month hijri_date) && (hijri_month hijri_date <=? 12)
  then ∃ name,
         HIJRI_MONTH_NAMES !! hijri_month hijri_date = Some name
         ∧ _get_islamic_date to_hijri self now
           = Ok (hijri_day hijri_date, name, hijri_year hijri_date)
  else _get_islamic_date to_hijri self now
       = KeyError (pretty (hijri_month hijri_date)).
Proof.
  unfold _get_islamic_date.
  destruct (ord2ymd (date_to_convert self now)) as [[year month] day].
  unfold hijri_tuple.
  pose proof (HIJRI_MONTH_NAMES_lookup (hijri_month (to_hijri year month day)))
    as Hlookup.
  destruct (_ && _).
  - destruct Hlookup as [name Hname]. exists name. by rewrite Hname.
  - by rewrite Hlookup.
Qed.

(** ** Event scheduler *)

Section SchedulerResults.

Implicit Types (self : MasjidDisplay) (now : datetime).
Implicit Types (today : gmap string string).

Lemma candidates_entry today now prayer iq t :
  (prayer, iq, t) ∈ candidates today now →
  prayer ∈ prayer_order (weekday now =? 4)
  ∧ ∃ time_str c,
      (time_str, iq) ∈ times_to_check today prayer
      ∧ strptime_I_M_p time_str = Some c
      ∧ t = replace_date c now.
Proof.
  unfold candidates. intros (prayer0 & Hc & Hp)%list_elem_of_bind.
  unfold prayer_candidates in Hc.
  destruct (negb (weekday now =? 4) && String.eqb prayer0 "Jummah");
    [by apply elem_of_nil in Hc|].
  apply list_elem_of_bind in Hc as ([time_str iq0] & Hc & Hentry).
  unfold entry_candidates in Hc; simpl in Hc.
  destruct (strptime_I_M_p time_str) as [c|] eqn:Hparse;
    [|by apply elem_of_nil in Hc].
  apply list_elem_of_singleton in Hc. injection Hc as -> -> ->.
  split; [done|]. by exists time_str, c.
Qed.

Lemma clock_ok_upper c now :
  clock_ok c → replace_date c now ≤ date_of now * DAY + 86340 * SECOND.
Proof.
  intros [Hh Hm]. unfold replace_date, HOUR, MINUTE, DAY, SECOND. lia.
Qed.

Lemma next_day_fajr_time_clock self now fajr_time :
  next_day_fajr_time self now = Some fajr_time →
  ∃ c, clock_ok c ∧ fajr_time = replace_date c (now + days 1).
Proof.
  unfold next_day_fajr_time.
  destruct (prayer_times self !! _) as [next_day_prayers|]; simpl; [|done].
  destruct (strptime_I_M_p _) as [c|] eqn:Hparse; simpl; [|done].
  intros [= <-]. exists c. split; [by eapply strptime_I_M_p_ok | done].
Qed.

(** The three ways of a result: no event, a candidate of the day after
    [now], the Fajr of the next day. *)
Lemma result_cases self now :
  _get_time_until_next_event self now = no_event
  ∨ (∃ today prayer iq t,
       today_prayers self = Some today
       ∧ (prayer, iq, t) ∈ candidates today now
       ∧ now < t
       ∧ _get_time_until_next_event self now
         = format_result (Scan (Some prayer) (Some (t - now)) iq))
  ∨ (∃ fajr_time,
       next_day_fajr_time self now = Some fajr_time
       ∧ (∀ today prayer iq t,
            today_prayers self = Some today →
            (prayer, iq, t) ∈ candidates today now → t ≤ now)
       ∧ _get_time_until_next_event self now
         = format_result (Scan (Some "Fajr") (Some (fajr_time - now)) false)).
Proof.
  destruct (today_prayers self) as [today|] eqn:Htoday;
    [|left; unfold _get_time_until_next_event; by rewrite Htoday].
  destruct (decide (today = ∅)) as [->|Hne].
  { left. unfold _get_time_until_next_event. rewrite Htoday.
    by rewrite bool_decide_eq_true_2. }
  rewrite (get_time_until_next_event_today _ _ _ Htoday Hne).
  pose proof (foldl_nearer_is_nearest now (candidates today now)) as Hnear.
  rewrite <- events_today_candidates in Hnear. unfold is_nearest in Hnear.
  destruct (events_today today now) as [ev least iq]; simpl in Hnear.
  destruct ev as [prayer|].
  - destruct Hnear as (i & t & Hi%list_elem_of_lookup_2 & Hnow & -> & _).
    right; left. exists today, prayer, iq, t. by split_and!.
  - destruct Hnear as [-> Hpast]. rewrite next_day_fajr_unfold.
    destruct (next_day_fajr_time self now) as [fajr_time|]; [|by left].
    right; right. exists fajr_time. split_and!; [done| |done].
    intros today' prayer iq' t [= <-]. apply Hpast.
Qed.

Lemma prayer_order_nonempty (is_friday : bool) prayer :
  prayer ∈ prayer_order is_friday → nonempty prayer = true.
Proof.
  rewrite prayer_order_cases. intros Hin.
  destruct is_friday;
    repeat (apply elem_of_cons in Hin as [->|Hin]; [done|]);
    by apply elem_of_nil in Hin.
Qed.

End SchedulerResults.

(** X7. Whatever the object and the instant, the scheduler returns either
    no event, with a countdown of zero and the flag off, or an event with a
    countdown of at least one second; the hours are at most 47, at most 23
    for an event of the day, and the minutes and seconds are below 60. *)
Theorem countdown_bounds (self : MasjidDisplay) (now : datetime) :
  let '(ev, hours, minutes, secs, iq) := _get_time_until_next_event self now in
  0 ≤ hours ≤ 47 ∧ 0 ≤ minutes < 60 ∧ 0 ≤ secs < 60
  ∧ match ev with
    | Some _ => 1 ≤ hours * 3600 + minutes * 60 + secs
    | None => hours = 0 ∧ minutes = 0 ∧ secs = 0 ∧ iq = false
    end
  ∧ (ev ≠ None →
     (∃ today prayer iq' t,
        today_prayers self = Some today
        ∧ (prayer, iq', t) ∈ candidates today now ∧ now < t) →
     hours ≤ 23).
Proof.
  destruct (result_cases self now)
    as [-> | [(today & prayer & iq & t & Htoday & Hin & Hnow & ->)
             | (fajr_time & Hfajr & Hpast & Hres)]].
  - simpl. split_and!; try lia; done.
  - apply candidates_entry in Hin as (_ & time_str & c & _ & Hparse & ->).
    apply strptime_I_M_p_ok in Hparse.
    pose proof (clock_ok_upper c now Hparse) as Hup.
    pose proof (date_of_bounds now) as Hday.
    destruct (format_result_positive prayer (replace_date c now - now) iq)
      as (h & m & s & -> & Hh & Hm & Hs & Hsum); [lia|].
    assert ((replace_date c now - now) `div` SECOND ≤ 86340) as Hq.
    { apply Z.div_le_upper_bound; unfold SECOND in *; lia. }
    pose proof (Z.div_pos (replace_date c now - now) SECOND).
    unfold SECOND in *. split_and!; try lia.
  - rewrite Hres.
    assert (¬ ∃ today prayer iq' t,
                today_prayers self = Some today
                ∧ (prayer, iq', t) ∈ candidates today now ∧ now < t) as Hnone.
    { intros (today & prayer & iq' & t & Htoday & Hin & Hnow).
      apply (Hpast _ _ _ _ Htoday) in Hin. lia. }
    pose proof Hfajr as Hnext.
    apply next_day_fajr_time_clock in Hfajr as (c & Hc & ->).
    pose proof (clock_ok_upper c (now + days 1) Hc) as Hup.
    rewrite date_of_next_day in Hup.
    pose proof (date_of_bounds now) as Hday.
    apply next_day_fajr_time_next_day in Hnext as [_ Hpos].
    destruct (format_result_positive "Fajr"
                (replace_date c (now + days 1) - now) false)
      as (h & m & s & -> & Hh & Hm & Hs & Hsum); [lia|].
    assert ((replace_date c (now + days 1) - now) `div` SECOND ≤ 172740) as Hq.
    { apply Z.div_le_upper_bound; unfold DAY, SECOND in *; lia. }
    pose proof (Z.div_pos (replace_date c (now + days 1) - now) SECOND).
    unfold DAY, SECOND in *. split_and!; try lia.
    intros _ Hex. by destruct Hnone.
Qed.

(** X17. [_draw_countdown] draws no countdown exactly when the scheduler
    returns no event; otherwise its heading names the event, or the Iqamah,
    and it shows one number, never below 1: the hours when there are any,
    else the minutes when there are any, else the seconds, with the unit in
    the singular exactly when the number is 1. *)
Theorem countdown_shows_positive (self : MasjidDisplay) (now : datetime) :
  match _draw_countdown self now with
  | Some (heading, value_text, unit_text) =>
      ∃ prayer hours minutes secs iq shown,
        _get_time_until_next_event self now
        = (Some prayer, hours, minutes, secs, iq)
        ∧ heading = "Time until " +:+ (if iq then "Iqamah" else prayer)
        ∧ shown = (if 0 <? hours then hours
                   else if 0 <? minutes then minutes else secs)
        ∧ 1 ≤ shown
        ∧ value_text = pretty shown
        ∧ unit_text
          = (if 0 <? hours then "hour"
             else if 0 <? minutes then "minute" else "second")
            +:+ (if shown =? 1 then "" else "s")
  | None => _get_time_until_next_event self now = no_event
  end.
Proof.
  unfold _draw_countdown.
  assert (∀ prayer diff iq,
            nonempty prayer = true → 0 < diff →
            match countdown_texts (format_result (Scan (Some prayer) (Some diff) iq)) with
            | Some (heading, value_text, unit_text) =>
                ∃ prayer' hours minutes secs iq' shown,
                  format_result (Scan (Some prayer) (Some diff) iq)
                  = (Some prayer', hours, minutes, secs, iq')
                  ∧ heading = "Time until " +:+ (if iq' then "Iqamah" else prayer')
                  ∧ shown = (if 0 <? hours then hours
                             else if 0 <? minutes then minutes else secs)
                  ∧ 1 ≤ shown
                  ∧ value_text = pretty shown
                  ∧ unit_text
                    = (if 0 <? hours then "hour"
                       else if 0 <? minutes then "minute" else "second")
                      +:+ (if shown =? 1 then "" else "s")
            | None =>
                format_result (Scan (Some prayer) (Some diff) iq) = no_event
            end) as Hshow.
  { intros prayer diff iq Hname Hpos.
    destruct (format_result_positive prayer diff iq Hpos)
      as (h & m & s & -> & Hh & Hm & Hs & Hsum).
    pose proof (Z.div_pos diff SECOND) as Hq.
    assert (1 ≤ h * 3600 + m * 60 + s) as Htotal
      by (unfold SECOND in *; lia).
    unfold countdown_texts. rewrite Hname.
    destruct (Z.ltb_spec 0 h) as [Hhp|Hh0].
    - eexists prayer, h, m, s, iq, h.
      rewrite (proj2 (Z.ltb_lt 0 h) Hhp).
      split_and!; [done | done | done | lia | done |].
      by destruct (h =? 1).
    - destruct (Z.ltb_spec 0 m) as [Hmp|Hm0].
      + eexists prayer, h, m, s, iq, m.
        rewrite (proj2 (Z.ltb_ge 0 h) Hh0), (proj2 (Z.ltb_lt 0 m) Hmp).
        split_and!; [done | done | done | lia | done |].
        by destruct (m =? 1).
      + eexists prayer, h, m, s, iq, s.
        rewrite (proj2 (Z.ltb_ge 0 h) Hh0), (proj2 (Z.ltb_ge 0 m) Hm0).
        split_and!; [done | done | done | lia | done |].
        by destruct (s =? 1). }
  destruct (result_cases self now)
    as [-> | [(today & prayer & iq & t & Htoday & Hin & Hnow & ->)
             | (fajr_time & Hfajr & _ & ->)]].
  - reflexivity.
  - apply Hshow; [|lia].
    apply candidates_entry in Hin as [Hin _].
    by eapply prayer_order_nonempty.
  - apply Hshow; [done|].
    apply next_day_fajr_time_next_day in Hfajr. lia.
Qed.

(** ** Scheduler and trigger *)

Section Agreement.

Implicit Types (now : datetime) (today : gmap string string).
Implicit Types (key prayer : string).

Lemma call_of_Some calls key time_str :
  call_of calls key = Some time_str → (time_str, key) ∈ calls.
Proof.
  induction calls as [|[ts k] calls IH]; simpl; [done|].
  destruct (String.eqb_spec k key) as [->|Hne].
  - intros [= ->]. left.
  - intros H. right. by apply IH.
Qed.

Lemma prayer_order_tracked now prayer :
  prayer ∈ prayer_order (weekday now =? 4) ↔ prayer ∈ tracked_today now.
Proof.
  rewrite prayer_order_cases, tracked_today_cases.
  destruct (weekday now =? 4); rewrite !elem_of_cons, !elem_of_nil; tauto.
Qed.

(** The calls of a tick are, for each prayer it does not skip, the one for
    its call time and, when the Iqamah time is given and is another text,
    the one for its Iqamah. *)
Lemma checks_elem today now time_str key :
  (time_str, key) ∈ checks today now →
  ∃ prayer,
    prayer ∈ tracked_today now
    ∧ ((time_str = get today prayer ∧ key = prayer)
       ∨ (nonempty (get today (prayer +:+ "_Iqamah")) = true
          ∧ get today (prayer +:+ "_Iqamah") ≠ get today prayer
          ∧ time_str = get today (prayer +:+ "_Iqamah")
          ∧ key = prayer +:+ "_Iqamah")).
Proof.
  unfold checks. intros (prayer & Hin & Hp)%list_elem_of_bind.
  exists prayer. unfold prayer_checks in Hin.
  destruct (_ || _) eqn:Hskip; [by apply elem_of_nil in Hin|].
  split.
  - unfold tracked_today. apply list_elem_of_In, filter_In.
    split; [by apply list_elem_of_In | by rewrite Hskip].
  - apply elem_of_cons in Hin as [[= -> ->] | Hin]; [by left|].
    destruct (nonempty _) eqn:Hne; [|by apply elem_of_nil in Hin].
    destruct (String.eqb_spec (get today (prayer +:+ "_Iqamah"))
                (get today prayer)) as [Heq|Hdiff];
      [by apply elem_of_nil in Hin|].
    simpl in Hin. apply list_elem_of_singleton in Hin.
    injection Hin as -> ->. by right.
Qed.

(** The Iqamah time of a prayer of the ordered list is a candidate when it
    is given and is another text than the call time. *)
Lemma iqamah_candidate today now prayer t :
  prayer ∈ prayer_order (weekday now =? 4) →
  nonempty (get today (prayer +:+ "_Iqamah")) = true →
  get today (prayer +:+ "_Iqamah") ≠ get today prayer →
  event_of now (get today (prayer +:+ "_Iqamah")) = Some t →
  (prayer, true, t) ∈ candidates today now.
Proof.
  intros Hin Hne Hdiff Hev. unfold candidates. apply list_elem_of_bind.
  exists prayer. split; [|done]. unfold prayer_candidates.
  assert (negb (weekday now =? 4) && String.eqb prayer "Jummah" = false) as ->.
  { rewrite prayer_order_cases in Hin.
    destruct (weekday now =? 4); [done|]. simpl.
    repeat (apply elem_of_cons in Hin as [->|Hin]; [done|]).
    by apply elem_of_nil in Hin. }
  apply list_elem_of_bind.
  exists (get today (prayer +:+ "_Iqamah"), true). split.
  - unfold entry_candidates; simpl. unfold event_of in Hev.
    destruct (strptime_I_M_p _); [|done].
    injection Hev as <-. by apply list_elem_of_singleton.
  - unfold times_to_check. rewrite Hne.
    assert (String.eqb (get today prayer) (get today (prayer +:+ "_Iqamah"))
            = false) as ->.
    { apply String.eqb_neq. congruence. }
    apply elem_of_app. right. by apply list_elem_of_singleton.
Qed.

Lemma times_to_check_elem today prayer time_str (iq : bool) :
  (time_str, iq) ∈ times_to_check today prayer →
  nonempty time_str = true
  ∧ if iq
    then time_str = get today (prayer +:+ "_Iqamah")
         ∧ get today (prayer +:+ "_Iqamah") ≠ get today prayer
    else time_str = get today prayer.
Proof.
  unfold times_to_check. intros [Hin|Hin]%elem_of_app.
  - destruct (nonempty (get today prayer)) eqn:Hne;
      [|by apply elem_of_nil in Hin].
    apply list_elem_of_singleton in Hin. by injection Hin as -> ->.
  - destruct (nonempty (get today (prayer +:+ "_Iqamah"))) eqn:Hne;
      [|by apply elem_of_nil in Hin].
    destruct (String.eqb_spec (get today prayer)
                (get today (prayer +:+ "_Iqamah"))) as [Heq|Hdiff];
      [by apply elem_of_nil in Hin|].
    simpl in Hin. apply list_elem_of_singleton in Hin.
    injection Hin as -> ->. split_and!; [done | done | congruence].
Qed.

Lemma candidates_nonempty_day today now prayer iq t :
  (prayer, iq, t) ∈ candidates today now → today ≠ ∅.
Proof.
  intros (_ & ts & c & Hts & _)%candidates_entry ->.
  unfold times_to_check, get in Hts. rewrite !lookup_empty in Hts.
  by apply elem_of_nil in Hts.
Qed.

(** The event instants of the keys of a tick are the timestamps the
    scheduler collects. *)
Lemma key_event_candidates today now key t :
  key_event (Some today) now key = Some t
  ↔ ∃ prayer iq,
      key = candidate_key prayer iq ∧ (prayer, iq, t) ∈ candidates today now.
Proof.
  split.
  - unfold key_event. case_bool_decide; [done|].
    destruct (call_of (checks today now) key) as [time_str|] eqn:Hcall;
      simpl; [|done].
    intros Hev.
    apply call_of_Some, checks_elem in Hcall
      as (prayer & Htracked%prayer_order_tracked
          & [[-> ->] | (Hne & Hdiff & -> & ->)]).
    + exists prayer, false. split; [done|]. by apply adhan_candidate.
    + exists prayer, true. split; [done|]. by apply iqamah_candidate.
  - intros (prayer & iq & -> & Hin).
    pose proof (candidates_nonempty_day _ _ _ _ _ Hin) as Hday.
    apply candidates_entry in Hin
      as (Htracked%prayer_order_tracked & ts & c & Hts & Hparse & ->).
    apply times_to_check_elem in Hts as [Hne Hts].
    destruct iq; unfold candidate_key.
    + destruct Hts as [-> Hdiff].
      rewrite key_event_iqamah by done. unfold event_of. by rewrite Hparse.
    + subst ts. rewrite key_event_adhan by done.
      unfold event_of. by rewrite Hparse.
Qed.

(** The timestamps depend on the instant through its date only. *)
Lemma candidates_same_date today now later :
  date_of later = date_of now → candidates today later = candidates today now.
Proof.
  intros Hdate. unfold candidates.
  assert (weekday later = weekday now) as ->
    by (unfold weekday; by rewrite Hdate).
  apply list_bind_ext; [|done]. intros prayer. unfold prayer_candidates.
  destruct (_ && _); [done|].
  apply list_bind_ext; [|done]. intros [time_str iq].
  unfold entry_candidates, replace_date. by rewrite Hdate.
Qed.

(** The second that starts at a timestamp of a day lies in that day. *)
Lemma candidate_window_date today now prayer iq t later :
  (prayer, iq, t) ∈ candidates today now →
  t ≤ later < t + seconds 1 →
  date_of later = date_of now.
Proof.
  intros (_ & ts & c & _ & Hparse & ->)%candidates_entry Hwin.
  apply strptime_I_M_p_ok in Hparse.
  pose proof (replace_date_bounds c now Hparse) as Hlow.
  pose proof (clock_ok_upper c now Hparse) as Hup.
  apply date_of_unique. unfold seconds, DAY, SECOND in *. lia.
Qed.

End Agreement.

(** X8. The scheduler and the trigger work on the same events.  The event
    that the loops of the scheduler select at an instant, and to which
    [_get_time_until_next_event] then counts down, is played by
    [_check_and_play_adhan] in the second that starts when the countdown
    ends, under the key of the event, exactly when its latch is unset, and
    the latch is set after it.  And whatever key a tick plays, the tick lies
    in the second of an instant of the day to which, or to an earlier event,
    the scheduler counts down at every earlier instant of that day. *)
Theorem scheduler_and_trigger_agree (self : MasjidDisplay) :
  (∀ today now prayer least iq later,
     today_prayers self = Some today →
     events_today today now = Scan (Some prayer) (Some least) iq →
     now + least ≤ later < now + least + seconds 1 →
     let sg := _check_and_play_adhan self later in
     _get_time_until_next_event self now
     = format_result (Scan (Some prayer) (Some least) iq)
     ∧ kind_of (_get_time_until_next_event self now) = Some prayer
     ∧ (candidate_key prayer iq ∈ played sg
        ↔ latch (beep_played self) (candidate_key prayer iq) = false)
     ∧ latch (latches sg) (candidate_key prayer iq) = true)
  ∧ (∀ later key,
       key ∈ played (_check_and_play_adhan self later) →
       ∃ prayer iq t,
         key = candidate_key prayer iq
         ∧ t ≤ later < t + seconds 1
         ∧ ∀ now, date_of now = date_of later → now < t →
             ∃ prayer' hours minutes secs iq',
               _get_time_until_next_event self now
               = (Some prayer', hours, minutes, secs, iq')
               ∧ hours * 3600 + minutes * 60 + secs
                 ≤ (t - now) `div` SECOND + 1).
Proof.
  split.
  - intros today now prayer least iq later Htoday Hev Hwin sg.
    pose proof (foldl_nearer_is_nearest now (candidates today now)) as Hnear.
    rewrite <- events_today_candidates, Hev in Hnear.
    unfold is_nearest in Hnear; simpl in Hnear.
    destruct Hnear as (i & t & Hin%list_elem_of_lookup_2 & Hnow & [= ->] & _).
    replace (now + (t - now)) with t in Hwin by lia.
    pose proof (candidates_nonempty_day _ _ _ _ _ Hin) as Hne.
    pose proof (candidate_window_date _ _ _ _ _ _ Hin Hwin) as Hdate.
    assert (key_event (Some today) later (candidate_key prayer iq) = Some t)
      as Hkey.
    { apply key_event_candidates. exists prayer, iq. split; [done|].
      by rewrite (candidates_same_date _ _ _ Hdate). }
    assert (_get_time_until_next_event self now
            = format_result (Scan (Some prayer) (Some (t - now)) iq)) as Hres.
    { by rewrite (get_time_until_next_event_today _ _ _ Htoday Hne), Hev. }
    destruct (tick_key self later (candidate_key prayer iq))
      as (Hlatch & Hplayed & _).
    fold sg in Hlatch, Hplayed. rewrite Htoday, Hkey in Hlatch, Hplayed.
    split_and!.
    + exact Hres.
    + rewrite Hres.
      destruct (format_result_positive prayer (t - now) iq)
        as (h & m & s & -> & _); [lia | done].
    + rewrite Hplayed. unfold key_step, latch.
      destruct (Z.leb_spec t later), (Z.ltb_spec later (t + seconds 1));
        try lia.
      simpl.
      destruct (default false (beep_played self !! candidate_key prayer iq));
        simpl; split; done.
    + unfold latch. rewrite Hlatch. unfold key_step.
      destruct (Z.leb_spec t later), (Z.ltb_spec later (t + seconds 1));
        try lia.
      simpl.
      by destruct (default false (beep_played self !! candidate_key prayer iq))
        eqn:Hentry.
  - intros later key Hplayed.
    destruct (tick_key self later key) as (_ & Hstep & _).
    apply Hstep in Hplayed. clear Hstep.
    destruct (today_prayers self) as [today|] eqn:Htoday; [|done].
    destruct (key_event (Some today) later key) as [t|] eqn:Hkey; [|done].
    unfold key_step in Hplayed.
    destruct (Z.leb_spec t later), (Z.ltb_spec later (t + seconds 1));
      simpl in Hplayed;
      try (destruct (t + seconds 1 <? later); discriminate Hplayed).
    apply key_event_candidates in Hkey as (prayer & iq & -> & Hin).
    exists prayer, iq, t. split_and!; [done | lia | lia |].
    intros now Hdate Hnow.
    rewrite <- (candidates_same_date today later now Hdate) in Hin.
    pose proof (candidates_nonempty_day _ _ _ _ _ Hin) as Hne.
    by eapply scheduled_by.
Qed.

Example scenario_A_agreement :
  today_prayers SCENARIO_A
  = Some (format_prayer_time <$> delete "Date" ROW_SCENARIO_A)
  ∧ events_today (format_prayer_time <$> delete "Date" ROW_SCENARIO_A)
      (instant 739252 5 0 0)
    = Scan (Some "Fajr") (Some (30 * MINUTE)) false
  ∧ _get_time_until_next_event SCENARIO_A (instant 739252 5 0 0)
    = (Some "Fajr", 0, 30, 1, false)
  ∧ played (_check_and_play_adhan SCENARIO_A (instant 739252 5 30 0))
    = ["Fajr"].
Proof. vm_compute. done. Qed.

(** ** Signal trigger *)

Section TriggerMore.

Implicit Types (now : datetime) (key : string).

Lemma key_step_idempotent now event_time entry :
  let once := key_step now event_time entry in
  key_step now event_time once.1 = (once.1, false).
Proof.
  unfold key_step. destruct event_time as [t|]; [|done].
  destruct (_ && _); simpl.
  - destruct (default false entry) eqn:Hentry; simpl; [|done].
    by rewrite Hentry.
  - by destruct (_ <? _).
Qed.

Lemma key_step_keeps now event_time entry :
  is_Some entry → is_Some (key_step now event_time entry).1.
Proof.
  unfold key_step. destruct event_time as [t|]; [|done].
  destruct (_ && _); [destruct (negb _)|destruct (_ <? _)]; simpl; eauto.
Qed.

End TriggerMore.

(** X9. In a tick whose instant lies in the window of one second of the
    event instant of a key, the sound is played for the key exactly when
    its latch is unset, and once; after the tick the latch is set. *)
Theorem fires_in_window (self : MasjidDisplay) (now : datetime)
    (key : string) (t : datetime) :
  key_event (today_prayers self) now key = Some t →
  t ≤ now < t + seconds 1 →
  let sg := _check_and_play_adhan self now in
  (key ∈ played sg ↔ latch (beep_played self) key = false)
  ∧ NoDup (played sg)
  ∧ latch (latches sg) key = true.
Proof.
  intros Hev Hwin sg.
  destruct (tick_key self now key) as (Hlatch & Hplayed & Hdup).
  fold sg in Hlatch, Hplayed, Hdup. rewrite Hev in Hlatch, Hplayed.
  unfold latch. rewrite Hlatch, Hplayed. unfold key_step.
  destruct (Z.leb_spec t now), (Z.ltb_spec now (t + seconds 1)); try lia.
  simpl. split_and!; [|done|].
  - destruct (default false (beep_played self !! key)); simpl; split; done.
  - by destruct (default false (beep_played self !! key)) eqn:Hentry.
Qed.

Lemma fires_in_window_witness :
  "Fajr" ∈ played (_check_and_play_adhan SCENARIO_A (instant 739252 5 30 0)).
Proof.
  destruct (fires_in_window SCENARIO_A (instant 739252 5 30 0) "Fajr"
              (instant 739252 5 30 0)) as (Hplayed & _ & _).
  - vm_compute. reflexivity.
  - vm_compute. split; [discriminate | reflexivity].
  - apply Hplayed. vm_compute. reflexivity.
Defined.

(** X10. A second tick at the same instant, with the same events of the
    day, plays nothing and leaves the latches as the first tick left them:
    polling an instant again repeats no signal. *)
Theorem tick_twice (self : MasjidDisplay) (now : datetime) :
  let sg := _check_and_play_adhan self now in
  let again :=
    _check_and_play_adhan (set_beep_played (latches sg) self) now in
  played again = [] ∧ latches again = latches sg.
Proof.
  intros sg again.
  assert (∀ key, latches again !! key = latches sg !! key
                 ∧ key ∉ played again) as Hkey.
  { intros key.
    destruct (tick_key self now key) as (Hlatch & _ & _).
    destruct (tick_key (set_beep_played (latches sg) self) now key)
      as (Hlatch' & Hplayed' & _).
    fold sg in Hlatch. fold again in Hlatch', Hplayed'. simpl in Hlatch', Hplayed'.
    rewrite Hlatch in Hlatch', Hplayed'.
    rewrite key_step_idempotent in Hlatch', Hplayed'. simpl in Hlatch', Hplayed'.
    split; [congruence|]. intros Hin%Hplayed'. discriminate. }
  split.
  - apply elem_of_nil_inv. intros key. apply Hkey.
  - apply map_eq. intros key. apply Hkey.
Qed.

(** X11. A tick removes no entry of the latches and changes none of a key
    that has no event in the tick or whose event is still to come, for
    which it plays nothing either; every key it plays is the name of a
    prayer it does not skip that day, or that name with the suffix of the
    Iqamah. *)
Theorem tick_frame (self : MasjidDisplay) (now : datetime) :
  let sg := _check_and_play_adhan self now in
  dom (beep_played self) ⊆ dom (latches sg)
  ∧ (∀ key,
       match key_event (today_prayers self) now key with
       | Some t => now < t
       | None => True
       end →
       latches sg !! key = beep_played self !! key ∧ key ∉ played sg)
  ∧ (∀ key, key ∈ played sg →
       ∃ prayer,
         prayer ∈ tracked_today now
         ∧ (key = prayer ∨ key = prayer +:+ "_Iqamah")).
Proof.
  intros sg. split_and!.
  - intros key [entry Hentry]%elem_of_dom. apply elem_of_dom.
    destruct (tick_key self now key) as (Hlatch & _ & _).
    fold sg in Hlatch. rewrite Hlatch. apply key_step_keeps. by rewrite Hentry.
  - intros key Hev.
    destruct (tick_key self now key) as (Hlatch & Hplayed & _).
    fold sg in Hlatch, Hplayed. rewrite Hlatch, Hplayed.
    destruct (key_event (today_prayers self) now key) as [t|]; [|done].
    unfold key_step. assert (0 < seconds 1) by done.
    destruct (Z.leb_spec t now), (Z.ltb_spec now (t + seconds 1)),
      (Z.ltb_spec (t + seconds 1) now); simpl; try lia; done.
  - intros key Hin.
    destruct (tick_key self now key) as (_ & Hplayed & _).
    fold sg in Hplayed. apply Hplayed, key_step_fires in Hin as (t & Hev & _).
    unfold key_event in Hev.
    destruct (today_prayers self) as [today|]; [|done].
    case_bool_decide; [done|].
    destruct (call_of (checks today now) key) as [time_str|] eqn:Hcall;
      [|done].
    apply call_of_Some, checks_elem in Hcall
      as (prayer & Htracked & [[_ ->] | (_ & _ & _ & ->)]);
      exists prayer; auto.
Qed.

(** ** The driving loop *)

Section Loop.

Implicit Types (a : app) (now : datetime) (new_date : Z).

Lemma set_today_same (self : MasjidDisplay) :
  set_today (today_prayers self) self = self.
Proof. by destruct self. Qed.

(** A tick on a day without events leaves the latches and plays nothing. *)
Lemma tick_without_events (self : MasjidDisplay) now :
  truthy (today_prayers self) = false →
  _check_and_play_adhan self now = Signals (beep_played self) [].
Proof.
  unfold _check_and_play_adhan, truthy.
  destruct (today_prayers self) as [today|]; [|done].
  by case_bool_decide.
Qed.

(** A turn of the loop is a tick of the run on the events of the day the
    turn leaves. *)
Lemma update_state_step a now new_date :
  let a' := (update_state a now new_date).1 in
  let tk := Tick now (today_prayers (display a')) in
  (update_state a now new_date).2 = played (step (display a) tk)
  ∧ display a' = after (display a) tk.
Proof.
  destruct a as [self date]. unfold update_state, after, step. simpl.
  case_bool_decide as Hdate; simpl.
  - destruct (truthy (get_today_prayer_times new_date (prayer_times self)))
      eqn:Htruthy; simpl; [split; reflexivity|].
    rewrite (tick_without_events
               (set_today (get_today_prayer_times new_date (prayer_times self)) self))
      by done.
    split; reflexivity.
  - destruct (truthy (today_prayers self)) eqn:Htruthy; simpl.
    + rewrite set_today_same. split; reflexivity.
    + rewrite set_today_same, tick_without_events by done.
      destruct self. split; reflexivity.
Qed.

Lemma update_state_date a now new_date :
  let a' := (update_state a now new_date).1 in
  current_date a' = new_date
  ∧ prayer_times (display a') = prayer_times (display a)
  ∧ today_prayers (display a')
    = (if bool_decide (new_date ≠ current_date a)
       then get_today_prayer_times new_date (prayer_times (display a))
       else today_prayers (display a)).
Proof.
  destruct a as [self date]. unfold update_state. simpl.
  case_bool_decide as Hdate; simpl.
  - by destruct (truthy _).
  - by destruct (truthy _).
Qed.

End Loop.

(** X12. The data [__init__] sets up and what [reload_data] leaves on the
    current date hold, as the events of the day, the row the store has for
    the current date, and every turn of the loop keeps it so: after the
    turn the current date is the date of the clock and the events of the
    day are the row of that date in the store, which the turn does not
    change. *)
Theorem loop_keeps_day (a : app) (now : datetime) (new_date : Z) :
  fresh a →
  let a' := (update_state a now new_date).1 in
  fresh a'
  ∧ current_date a' = new_date
  ∧ prayer_times (display a') = prayer_times (display a)
  ∧ today_prayers (display a')
    = get_today_prayer_times new_date (prayer_times (display a))
  ∧ (∀ source today a0, init_data source today = Ok a0 → fresh a0)
  ∧ (∀ source self,
       reload_data source (current_date a) (display a) = Ok self →
       fresh (App self (current_date a))).
Proof.
  intros Hfresh a'.
  destruct (update_state_date a now new_date) as (Hdate & Hstore & Htoday).
  fold a' in Hdate, Hstore, Htoday.
  assert (today_prayers (display a')
          = get_today_prayer_times new_date (prayer_times (display a))) as Hrow.
  { rewrite Htoday. case_bool_decide as Hnew; [done|].
    by rewrite Hnew, <- Hfresh. }
  split_and!; [|done..| |].
  - unfold fresh. by rewrite Hrow, Hdate, Hstore.
  - intros source today a0. unfold init_data.
    destruct (load_prayer_times source); [|done..]. by intros [= <-].
  - intros source self. unfold reload_data.
    destruct (load_prayer_times source); [|done..]. by intros [= <-].
Qed.

Lemma loop_keeps_day_witness :
  today_prayers
    (display (update_state (App SCENARIO_C 739252) (instant 739253 0 0 1)
                739253).1)
  = get_today_prayer_times 739253 (prayer_times SCENARIO_C).
Proof.
  destruct (loop_keeps_day (App SCENARIO_C 739252) (instant 739253 0 0 1)
              739253) as (_ & _ & _ & Hrow & _).
  - vm_compute. reflexivity.
  - exact Hrow.
Defined.

(** X13. The turns of the loop are a run of ticks: the keys they play, turn
    by turn, are the keys played by the run of the ticks made at their
    instants on the events of the day each turn holds. *)
Theorem loop_is_run (a : app) (clock : list (datetime * Z)) :
  loop a clock = played <$> run (display a) (ticks_of a clock)
  ∧ length (ticks_of a clock) = length clock
  ∧ tick_time <$> ticks_of a clock = fst <$> clock.
Proof.
  revert a. induction clock as [|[now new_date] clock IH]; intros a; [done|].
  simpl.
  destruct (update_state_step a now new_date) as [Hkeys Hafter].
  destruct (update_state a now new_date) as [a' keys] eqn:Hturn.
  simpl in Hkeys, Hafter. simpl.
  destruct (IH a') as (IHloop & IHlen & IHtime).
  split_and!.
  - rewrite <- Hafter, <- Hkeys. f_equal. exact IHloop.
  - by rewrite IHlen.
  - f_equal. exact IHtime.
Qed.

(** ** Colour themes and font sizes *)

Section Themes.

Lemma n_themes : Z.of_nat (length COLOR_THEMES) = 27.
Proof. reflexivity. Qed.

Lemma get_current_theme_total (index : Z) : is_Some (_get_current_theme index).
Proof.
  unfold _get_current_theme. rewrite n_themes.
  destruct (COLOR_THEMES !! Z.to_nat (index `mod` 27)) as [theme|] eqn:Hth;
    [by eexists|].
  apply lookup_ge_None in Hth.
  pose proof (Z.mod_pos_bound index 27). pose proof n_themes. lia.
Qed.

Lemma cycle_right_iter (n : nat) (index : Z) :
  Nat.iter n (λ i, (_cycle_theme K_RIGHT i).1) index
  = if n is O then index else (index + Z.of_nat n) `mod` 27.
Proof.
  induction n as [|n IH]; [done|]. rewrite Nat.iter_succ, IH.
  unfold _cycle_theme. rewrite n_themes. simpl fst.
  destruct n as [|n]; [done|].
  rewrite Z.add_mod_idemp_l by done. f_equal. lia.
Qed.

End Themes.

(** X14. Whatever index the settings hold, below zero or past the last
    theme, reading the current theme succeeds, and a turn of the theme to
    the right or to the left leaves an index among those of the 27 themes;
    any other key leaves the index. *)
Theorem theme_index_in_range (key : pygame_key) (index : Z) :
  is_Some (_get_current_theme index)
  ∧ is_Some (_cycle_theme key index).2
  ∧ (if pygame_key_eqb key K_RIGHT || pygame_key_eqb key K_LEFT
     then 0 ≤ (_cycle_theme key index).1 < Z.of_nat (length COLOR_THEMES)
     else (_cycle_theme key index).1 = index).
Proof.
  split_and!.
  - apply get_current_theme_total.
  - apply get_current_theme_total.
  - unfold _cycle_theme. rewrite n_themes. simpl fst.
    pose proof (Z.mod_pos_bound (index + 1) 27).
    pose proof (Z.mod_pos_bound (index - 1) 27).
    destruct key; simpl; lia.
Qed.

(** X15. From an index among those of the themes, a turn to the right
    followed by a turn to the left, or the reverse, comes back to the index,
    also across the two ends of the list, and 27 turns to the right go
    round to it. *)
Theorem theme_cycle_round_trip (index : Z) :
  0 ≤ index < Z.of_nat (length COLOR_THEMES) →
  (_cycle_theme K_LEFT (_cycle_theme K_RIGHT index).1).1 = index
  ∧ (_cycle_theme K_RIGHT (_cycle_theme K_LEFT index).1).1 = index
  ∧ Nat.iter 27 (λ i, (_cycle_theme K_RIGHT i).1) index = index
  ∧ (_cycle_theme K_RIGHT 26).1 = 0
  ∧ (_cycle_theme K_LEFT 0).1 = 26.
Proof.
  rewrite n_themes. intros Hrange. split_and!.
  - unfold _cycle_theme. rewrite n_themes. simpl fst.
    rewrite Zminus_mod_idemp_l. replace (index + 1 - 1) with index by lia.
    by apply Z.mod_small.
  - unfold _cycle_theme. rewrite n_themes. simpl fst.
    rewrite Zplus_mod_idemp_l. replace (index - 1 + 1) with index by lia.
    by apply Z.mod_small.
  - rewrite cycle_right_iter. cbv beta iota.
    change (Z.of_nat 27) with 27.
    pose proof (Z.div_mod (index + 27) 27).
    pose proof (Z.mod_pos_bound (index + 27) 27). lia.
  - reflexivity.
  - reflexivity.
Qed.

Lemma theme_cycle_round_trip_witness :
  (_cycle_theme K_LEFT (_cycle_theme K_RIGHT 26).1).1 = 26.
Proof.
  destruct (theme_cycle_round_trip 26) as (H & _).
  - vm_compute. split; [discriminate | reflexivity].
  - exact H.
Defined.

(** X16. [_adjust_font_size] raises [TypeError] exactly when the settings
    have no size for the font; otherwise it changes that one setting, by one
    up or by one down but never below 1, and makes the font of that size;
    a size of 1 or more made larger and then smaller is the size again, and
    so are the settings. *)
Theorem adjust_font_size_bounds (font_key : string) (key : pygame_key)
    (settings : gmap string Z) (fonts : gmap string font) :
  let size_key := font_key +:+ "_font_size" in
  match _adjust_font_size font_key key settings fonts with
  | None => settings !! size_key = None
  | Some (settings', fonts') =>
      ∃ current_size new_size f,
        settings !! size_key = Some current_size
        ∧ settings' = <[size_key := new_size]> settings
        ∧ fonts' !! font_key = Some f
        ∧ font_size f = new_size
        ∧ (∀ other, other ≠ font_key → fonts' !! other = fonts !! other)
        ∧ (if pygame_key_eqb key K_2 || pygame_key_eqb key K_4
              || pygame_key_eqb key K_6
           then new_size = current_size + 1
           else new_size = Z.max 1 (current_size - 1) ∧ 1 ≤ new_size)
        ∧ (1 ≤ current_size →
           1 ≤ new_size
           ∧ ∀ settings1 fonts1,
               _adjust_font_size font_key K_2 settings fonts
               = Some (settings1, fonts1) →
               ∃ fonts2,
                 _adjust_font_size font_key K_1 settings1 fonts1
                 = Some (settings, fonts2))
  end.
Proof.
  intros size_key. unfold _adjust_font_size. fold size_key.
  destruct (settings !! size_key) as [current_size|] eqn:Hsize; [|done].
  eexists current_size, _, _. split_and!; [done | done | | | | |].
  - apply lookup_insert_eq.
  - done.
  - intros other Hother. by rewrite lookup_insert_ne.
  - destruct (_ || _); [done | lia].
  - intros Hpos. split; [destruct (_ || _); lia|].
    intros settings1 fonts1 [= <- <-]. simpl.
    rewrite lookup_insert_eq. eexists. f_equal. f_equal.
    rewrite insert_insert_eq.
    replace (Z.max 1 (current_size + 1 - 1)) with current_size by lia.
    by apply insert_id.
Qed.
